(** * Browsable hierarchy of a STAC API: parsing and link generation

    A shallow embedding of [stac_fastapi/types/hierarchy.py]
    ([parse_hierarchy], [browsable_child_link], [browsable_item_link],
    [browsable_catalog]) together with the parts of Python the module relies
    on: dynamically typed JSON-like values, exceptions, a few [str] methods,
    [urllib.parse.urljoin] and the validation the [Catalog] model of
    [stac_pydantic] runs on its fields. *)

From Stdlib Require Import String Ascii List ZArith Bool Arith Lia DecimalString.
Import ListNotations.
Open Scope list_scope.
Open Scope string_scope.

(** ** Exceptions and the result of running Python code *)

(** The exceptions the modelled code can raise. [RecursionError] is what
    the interpreter raises when the nesting of calls exceeds its recursion
    limit; [ValidationError] is what a pydantic class raises when it is
    given a field it does not accept. *)
Inductive exn : Type :=
| TypeError
| KeyError
| IndexError
| AttributeError
| ValueError
| RecursionError
| ValidationError.

Inductive result (A : Type) : Type :=
| Ok (a : A)
| Raise (e : exn).

Arguments Ok {A} a.
Arguments Raise {A} e.

Definition bind {A B : Type} (c : result A) (k : A -> result B) : result B :=
  match c with
  | Ok a => k a
  | Raise e => Raise e
  end.

Notation "x <- c ;; k" := (bind c (fun x => k))
  (at level 61, c at next level, right associativity).

(** A list comprehension [[f(x) for x in l]]: elements are evaluated from
    left to right and the first exception aborts the whole comprehension. *)
Fixpoint mapM {A B : Type} (f : A -> result B) (l : list A) : result (list B) :=
  match l with
  | [] => Ok []
  | x :: tl => y <- f x ;; ys <- mapM f tl ;; Ok (y :: ys)
  end.

(** ** Methods of [str]

    A Python [str] is modelled as a [string] of 8-bit characters (code
    points 0 to 255). *)

Definition is_empty (s : string) : bool :=
  match s with
  | EmptyString => true
  | String _ _ => false
  end.

Fixpoint forallb_str (p : ascii -> bool) (s : string) : bool :=
  match s with
  | EmptyString => true
  | String a s' => p a && forallb_str p s'
  end.

(** [c in s] for a single character [c]. *)
Fixpoint has_char (c : ascii) (s : string) : bool :=
  match s with
  | EmptyString => false
  | String a s' => Ascii.eqb a c || has_char c s'
  end.

(** [s.startswith(p)]. *)
Definition startswith (p s : string) : bool := prefix p s.

(** [p in s] for strings: [p] occurs in [s] as a contiguous substring. *)
Fixpoint str_contains (p s : string) : bool :=
  if prefix p s then true
  else match s with
       | EmptyString => false
       | String _ s' => str_contains p s'
       end.

(** [s.endswith(p)]. *)
Fixpoint endswith (p s : string) : bool :=
  if String.eqb s p then true
  else match s with
       | EmptyString => false
       | String _ s' => endswith p s'
       end.

(** [s.lstrip(c)], [s.rstrip(c)] and [s.strip(c)] for a one-character
    argument: every leading (trailing) occurrence of [c] is removed. *)
Fixpoint lstrip (c : ascii) (s : string) : string :=
  match s with
  | EmptyString => EmptyString
  | String a s' => if Ascii.eqb a c then lstrip c s' else s
  end.

Fixpoint rstrip (c : ascii) (s : string) : string :=
  match s with
  | EmptyString => EmptyString
  | String a s' =>
      let r := rstrip c s' in
      if Ascii.eqb a c && is_empty r then EmptyString else String a r
  end.

Definition strip (c : ascii) (s : string) : string := rstrip c (lstrip c s).

(** [s.split(c)] for a one-character separator: never the empty list. *)
Fixpoint split (c : ascii) (s : string) : list string :=
  match s with
  | EmptyString => [EmptyString]
  | String a s' =>
      if Ascii.eqb a c then EmptyString :: split c s'
      else match split c s' with
           | h :: t => String a h :: t
           | [] => [String a EmptyString]
           end
  end.

(** [sep.join(l)]. *)
Definition join (sep : string) (l : list string) : string := String.concat sep l.

(** [s.split(c, 1)] when [c] occurs in [s]: the text before the first
    occurrence of [c] and the text after it; [None] when [c in s] is false.
    The position [s.find(c)] is the length of the first component. *)
Fixpoint cut (c : ascii) (s : string) : option (string * string) :=
  match s with
  | EmptyString => None
  | String a s' =>
      if Ascii.eqb a c then Some (EmptyString, s')
      else match cut c s' with
           | Some (l, r) => Some (String a l, r)
           | None => None
           end
  end.

(** The same at the last occurrence of [c] ([s.rfind(c)]). *)
Fixpoint rcut (c : ascii) (s : string) : option (string * string) :=
  match s with
  | EmptyString => None
  | String a s' =>
      match rcut c s' with
      | Some (l, r) => Some (String a l, r)
      | None => if Ascii.eqb a c then Some (EmptyString, s') else None
      end
  end.

(** [s.replace(c, empty)]: every occurrence of the character is dropped. *)
Fixpoint remove_char (c : ascii) (s : string) : string :=
  match s with
  | EmptyString => EmptyString
  | String a s' =>
      if Ascii.eqb a c then remove_char c s' else String a (remove_char c s')
  end.

Definition is_upper (a : ascii) : bool :=
  (65 <=? nat_of_ascii a)%nat && (nat_of_ascii a <=? 90)%nat.

(** [s.lower()] on the ASCII letters (the only letters a scheme can hold). *)
Fixpoint lower (s : string) : string :=
  match s with
  | EmptyString => EmptyString
  | String a s' =>
      String (if is_upper a then ascii_of_nat (nat_of_ascii a + 32) else a)
             (lower s')
  end.

(** [s[:-1]]. *)
Fixpoint drop_last (s : string) : string :=
  match s with
  | EmptyString => EmptyString
  | String a EmptyString => EmptyString
  | String a s' => String a (drop_last s')
  end.

(** [s[n:]]. *)
Fixpoint drop (n : nat) (s : string) : string :=
  match n, s with
  | O, _ => s
  | S _, EmptyString => EmptyString
  | S n', String _ s' => drop n' s'
  end.

(** [x in l] for a list of strings. *)
Definition str_in (x : string) (l : list string) : bool :=
  existsb (String.eqb x) l.

(** ** Python values

    The values [json.load] produces, which is what the module is fed: a
    mapping is an association list in insertion order and [lookup] returns
    the first binding of a key (keys of a [dict] are distinct). Floats are
    left out: the module treats them exactly as it treats integers. *)

Unset Elimination Schemes.
Inductive value : Type :=
| VNone
| VBool (b : bool)
| VInt (z : Z)
| VStr (s : string)
| VList (l : list value)
| VDict (kvs : list (string * value)).
Set Elimination Schemes.

Fixpoint lookup (k : string) (kvs : list (string * value)) : option value :=
  match kvs with
  | [] => None
  | (k', v) :: tl => if String.eqb k' k then Some v else lookup k tl
  end.

(** The truth value of an object, as [or], [not] and [if] test it. *)
Definition truthy (v : value) : bool :=
  match v with
  | VNone => false
  | VBool b => b
  | VInt z => negb (Z.eqb z 0)
  | VStr s => negb (is_empty s)
  | VList l => match l with [] => false | _ => true end
  | VDict kvs => match kvs with [] => false | _ => true end
  end.

(** [a or b]. *)
Definition py_or (a b : value) : value := if truthy a then a else b.

(** [k in v] for a [str] key [k]: key membership in a mapping, element
    membership in a list, substring test in a [str]; the other values are
    not containers. *)
Definition contains (k : string) (v : value) : result bool :=
  match v with
  | VDict kvs => Ok (match lookup k kvs with Some _ => true | None => false end)
  | VList l =>
      Ok (existsb (fun x => match x with VStr s => String.eqb s k | _ => false end) l)
  | VStr s => Ok (str_contains k s)
  | _ => Raise TypeError
  end.

(** [v[k]] for a [str] key [k]. *)
Definition getitem (v : value) (k : string) : result value :=
  match v with
  | VDict kvs => match lookup k kvs with Some x => Ok x | None => Raise KeyError end
  | _ => Raise TypeError
  end.

(** [v[n]] for a non-negative integer literal [n]. *)
Definition getindex (v : value) (n : nat) : result value :=
  match v with
  | VList l => match nth_error l n with Some x => Ok x | None => Raise IndexError end
  | VStr s =>
      match String.get n s with
      | Some a => Ok (VStr (String a EmptyString))
      | None => Raise IndexError
      end
  | VDict _ => Raise KeyError
  | _ => Raise TypeError
  end.

(** [v.get(k)]: only mappings have the method. *)
Definition get (v : value) (k : string) : result value :=
  match v with
  | VDict kvs => Ok (match lookup k kvs with Some x => x | None => VNone end)
  | _ => Raise AttributeError
  end.

Fixpoint chars (s : string) : list value :=
  match s with
  | EmptyString => []
  | String a s' => VStr (String a EmptyString) :: chars s'
  end.

(** [for x in v]: the elements of a list, the keys of a mapping, the
    characters of a [str]. *)
Definition iter (v : value) : result (list value) :=
  match v with
  | VList l => Ok l
  | VDict kvs => Ok (map (fun kv => VStr (fst kv)) kvs)
  | VStr s => Ok (chars s)
  | _ => Raise TypeError
  end.

(** *** [repr] and [str] of a value, as an f-string interpolates it *)

Definition quote1 : ascii := ascii_of_nat 39.
Definition quote2 : ascii := ascii_of_nat 34.
Definition backslash : ascii := ascii_of_nat 92.

Definition hex_digit (n : nat) : ascii :=
  if (n <? 10)%nat then ascii_of_nat (48 + n) else ascii_of_nat (87 + n).

Definition repr_char (quote a : ascii) : string :=
  let n := nat_of_ascii a in
  if Ascii.eqb a quote || Ascii.eqb a backslash then String backslash (String a EmptyString)
  else if (n =? 9)%nat then String backslash "t"
  else if (n =? 10)%nat then String backslash "n"
  else if (n =? 13)%nat then String backslash "r"
  else if ((n <? 32) || (n =? 127) || ((128 <=? n) && (n <=? 160)) || (n =? 173))%nat
       then String backslash
              (String "x" (String (hex_digit (n / 16)) (String (hex_digit (n mod 16)) EmptyString)))
  else String a EmptyString.

Fixpoint repr_chars (quote : ascii) (s : string) : string :=
  match s with
  | EmptyString => EmptyString
  | String a s' => repr_char quote a ++ repr_chars quote s'
  end.

Definition repr_str (s : string) : string :=
  let quote := if has_char quote1 s && negb (has_char quote2 s) then quote2 else quote1 in
  String quote (repr_chars quote s ++ String quote EmptyString).

Definition repr_int (z : Z) : string := NilZero.string_of_int (Z.to_int z).

Fixpoint repr (v : value) : string :=
  match v with
  | VNone => "None"
  | VBool true => "True"
  | VBool false => "False"
  | VInt z => repr_int z
  | VStr s => repr_str s
  | VList l => "[" ++ join ", " (map repr l) ++ "]"
  | VDict kvs =>
      "{" ++ join ", " (map (fun kv => repr_str (fst kv) ++ ": " ++ repr (snd kv)) kvs) ++ "}"
  end.

(** [f"{v}"], that is [str(v)]. *)
Definition format_value (v : value) : string :=
  match v with
  | VStr s => s
  | _ => repr v
  end.

(** ** [urllib.parse]

    [urljoin] and the functions under it belong to Python's standard
    library. They are transcribed from [urllib/parse.py] of CPython 3.10.0
    for [str] arguments. [_checknetloc] is left out: it only rejects a
    network location holding a character whose NFKC normal form contains one
    of [/?#@:], and no character below code point 256 has such a form. *)

Notation "' pat <- c ;; k" :=
  (bind c (fun x => match x with pat => k end))
  (at level 61, pat pattern, c at next level, right associativity).

Definition uses_relative : list string :=
  [EmptyString; "ftp"; "http"; "gopher"; "nntp"; "imap";
   "wais"; "file"; "https"; "shttp"; "mms";
   "prospero"; "rtsp"; "rtspu"; "sftp";
   "svn"; "svn+ssh"; "ws"; "wss"].

Definition uses_netloc : list string :=
  [EmptyString; "ftp"; "http"; "gopher"; "nntp"; "telnet";
   "imap"; "wais"; "file"; "mms"; "https"; "shttp";
   "snews"; "prospero"; "rtsp"; "rtspu"; "rsync";
   "svn"; "svn+ssh"; "sftp"; "nfs"; "git"; "git+ssh";
   "ws"; "wss"].

Definition uses_params : list string :=
  [EmptyString; "ftp"; "hdl"; "prospero"; "http"; "imap";
   "https"; "shttp"; "rtsp"; "rtspu"; "sip"; "sips";
   "mms"; "sftp"; "tel"].

Definition scheme_chars : string :=
  "abcdefghijklmnopqrstuvwxyzABCDEFGHIJKLMNOPQRSTUVWXYZ0123456789+-.".

(** Tab, carriage return and line feed. *)
Definition UNSAFE_URL_BYTES_TO_REMOVE : list ascii :=
  [ascii_of_nat 9; ascii_of_nat 13; ascii_of_nat 10].

Definition remove_unsafe (s : string) : string :=
  fold_left (fun u b => remove_char b u) UNSAFE_URL_BYTES_TO_REMOVE s.

(** The longest prefix of [s] without a character satisfying [stop], and
    the rest. *)
Fixpoint span_until (stop : ascii -> bool) (s : string) : string * string :=
  match s with
  | EmptyString => (EmptyString, EmptyString)
  | String a s' =>
      if stop a then (EmptyString, s)
      else let '(l, r) := span_until stop s' in (String a l, r)
  end.

(** [_splitnetloc(url, start)]: the text from [start] to the first of
    [/], [?] and [#], and the text from that delimiter on. *)
Definition splitnetloc (url : string) (start : nat) : string * string :=
  span_until (fun c => has_char c "/?#") (drop start url).

(** [_splitparams(url)]: the parameters are looked for in the last path
    segment only. [urlparse] calls it when [';' in url]. *)
Definition splitparams (url : string) : string * string :=
  match rcut "/" url with
  | Some (dir, last_seg) =>
      match cut ";" last_seg with
      | Some (seg, params) => (dir ++ "/" ++ seg, params)
      | None => (url, EmptyString)
      end
  | None =>
      match cut ";" url with
      | Some (seg, params) => (seg, params)
      | None => (drop_last url, url)
      end
  end.

(** [urlsplit(url, scheme, allow_fragments)]: the 5-tuple
    [(scheme, netloc, path, query, fragment)]. *)
Definition urlsplit (url scheme : string) (allow_fragments : bool)
  : result (string * string * string * string * string) :=
  let url := remove_unsafe url in
  let scheme := remove_unsafe scheme in
  let '(scheme, url) :=
    match cut ":" url with
    | Some (head, rest) =>
        if negb (is_empty head) && forallb_str (fun c => has_char c scheme_chars) head
        then (lower head, rest)
        else (scheme, url)
    | None => (scheme, url)
    end in
  '(netloc, url) <-
    (if startswith "//" url then
       let '(netloc, rest) := splitnetloc url 2 in
       if (has_char "[" netloc && negb (has_char "]" netloc))
          || (has_char "]" netloc && negb (has_char "[" netloc))
       then Raise ValueError
       else Ok (netloc, rest)
     else Ok (EmptyString, url)) ;;
  let '(url, fragment) :=
    match (if allow_fragments then cut "#" url else None) with
    | Some (l, r) => (l, r)
    | None => (url, EmptyString)
    end in
  let '(url, query) :=
    match cut "?" url with
    | Some (l, r) => (l, r)
    | None => (url, EmptyString)
    end in
  Ok (scheme, netloc, url, query, fragment).

(** [urlparse(url, scheme, allow_fragments)]: the 6-tuple
    [(scheme, netloc, path, params, query, fragment)]. *)
Definition urlparse (url scheme : string) (allow_fragments : bool)
  : result (string * string * string * string * string * string) :=
  '(scheme, netloc, url, query, fragment) <- urlsplit url scheme allow_fragments ;;
  let '(url, params) :=
    if str_in scheme uses_params && has_char ";" url then splitparams url
    else (url, EmptyString) in
  Ok (scheme, netloc, url, params, query, fragment).

Definition urlunsplit (components : string * string * string * string * string) : string :=
  let '(scheme, netloc, url, query, fragment) := components in
  let url :=
    if negb (is_empty netloc)
       || (negb (is_empty scheme) && str_in scheme uses_netloc && negb (startswith "//" url))
    then "//" ++ netloc ++ (if negb (is_empty url) && negb (startswith "/" url)
                            then "/" ++ url else url)
    else url in
  let url := if negb (is_empty scheme) then scheme ++ ":" ++ url else url in
  let url := if negb (is_empty query) then url ++ "?" ++ query else url in
  if negb (is_empty fragment) then url ++ "#" ++ fragment else url.

Definition urlunparse
  (components : string * string * string * string * string * string) : string :=
  let '(scheme, netloc, url, params, query, fragment) := components in
  let url := if negb (is_empty params) then url ++ ";" ++ params else url in
  urlunsplit (scheme, netloc, url, query, fragment).

(** [segments[1:-1] = filter(None, segments[1:-1])]: the empty segments
    strictly between the first and the last one are dropped. *)
Definition filter_middle (segments : list string) : list string :=
  match segments with
  | [] => []
  | first :: tl =>
      match tl with
      | [] => [first]
      | _ => first :: (filter (fun s => negb (is_empty s)) (removelast tl)
                       ++ [last tl EmptyString])%list
      end
  end.

(** One turn of the loop over [segments] that builds [resolved_path]. *)
Definition resolve_segment (resolved_path : list string) (seg : string) : list string :=
  if String.eqb seg ".." then removelast resolved_path
  else if String.eqb seg "." then resolved_path
  else (resolved_path ++ [seg])%list.

(** [urljoin(base, url, allow_fragments)] on two [str] arguments. *)
Definition urljoin (base url : string) (allow_fragments : bool) : result string :=
  if is_empty base then Ok url
  else if is_empty url then Ok base
  else
    '(bscheme, bnetloc, bpath, bparams, bquery, bfragment) <-
       urlparse base EmptyString allow_fragments ;;
    '(scheme, netloc, path, params, query, fragment) <-
       urlparse url bscheme allow_fragments ;;
    if negb (String.eqb scheme bscheme) || negb (str_in scheme uses_relative) then Ok url
    else if str_in scheme uses_netloc && negb (is_empty netloc) then
      Ok (urlunparse (scheme, netloc, path, params, query, fragment))
    else
      let netloc := if str_in scheme uses_netloc then bnetloc else netloc in
      if is_empty path && is_empty params then
        Ok (urlunparse (scheme, netloc, bpath, bparams,
                        if is_empty query then bquery else query, fragment))
      else
        let base_parts := split "/" bpath in
        let base_parts :=
          if negb (is_empty (last base_parts EmptyString)) then removelast base_parts
          else base_parts in
        let segments :=
          if startswith "/" path then split "/" path
          else filter_middle (base_parts ++ split "/" path)%list in
        let resolved_path := fold_left resolve_segment segments [] in
        let resolved_path :=
          if str_in (last segments EmptyString) ["."; ".."]
          then (resolved_path ++ [EmptyString])%list
          else resolved_path in
        let joined := join "/" resolved_path in
        Ok (urlunparse (scheme, netloc, if is_empty joined then "/" else joined,
                        params, query, fragment)).

(** A call of [urljoin] with the positional arguments [args] only. The
    call binds them to the signature [(base, url, allow_fragments=True)]
    before the body runs: fewer than two or more than three arguments raise
    [TypeError]. The body first returns on an empty argument, then
    [_coerce_args] rejects a mix of [str] and other arguments with
    [TypeError] and calls [decode] on arguments that are not [str], a method
    none of the modelled values has. *)
Definition urljoin_call (args : list value) : result value :=
  let run (base url : value) (allow_fragments : bool) : result value :=
    if negb (truthy base) then Ok url
    else if negb (truthy url) then Ok base
    else match base, url with
         | VStr b, VStr u => href <- urljoin b u allow_fragments ;; Ok (VStr href)
         | VStr _, _ => Raise TypeError
         | _, VStr _ => Raise TypeError
         | _, _ => Raise AttributeError
         end in
  match args with
  | [base; url] => run base url true
  | [base; url; allow_fragments] => run base url (truthy allow_fragments)
  | _ => Raise TypeError
  end.

(** ** Names imported from [stac_pydantic] *)

(** Modelled from the spec: [Relations.child.value], the [rel] of a link to
    a child; the spec gives it as the string child. *)
Definition Relations_child : string := "child".

(** Modelled from the spec: [Relations.item.value], the [rel] of a link to
    an item. *)
Definition Relations_item : string := "item".

(** Modelled from the spec: [Relations.root.value], the [rel] of the root
    link. *)
Definition Relations_root : string := "root".

(** Modelled from the spec: [Relations.self.value], the [rel] of the self
    link. *)
Definition Relations_self : string := "self".

(** Modelled from the spec: [MimeTypes.json], the [type] of every link the
    module builds; the spec gives it as application/json. *)
Definition MimeTypes_json : string := "application/json".

(** Modelled from the spec: a [Link] of [stac_pydantic], of shape
    [{rel, type, title?, href}]: [href] and [rel] are non-empty strings,
    [type] and [title] are optional strings. *)
Record Link : Type := mkLink {
  href : string;
  rel : string;
  link_type : option string;
  title : option string
}.

(** Modelled from the spec: the [Catalog] document of [stac_pydantic], of
    shape [{type, id, description, stac_version, links}] with [links] a
    list of [Link]: [id] and [description] are non-empty strings. *)
Record Catalog : Type := mkCatalog {
  type : string;
  id : string;
  description : string;
  stac_version : string;
  links : list Link
}.

(** Both are pydantic (version 1) models, declared in [stac_pydantic] and
    not in this repository: [Catalog] with [id] and [description] strings
    of at least one character ([min_length=1]), [links] a list of links
    and the constants [type] and [stac_version]; [Link] with [href] and
    [rel] strings of at least one character, [type] and [title] of type
    [Optional[str]]. Building a model validates every field, coerces what
    it accepts to the declared type and raises [ValidationError] when a
    field is refused.

    A string field keeps a [str], turns an [int] (and a [bool], which is
    an [int]) into its [str] and refuses [None], lists and mappings. *)
Definition str_validator (v : value) : result string :=
  match v with
  | VStr s => Ok s
  | VInt _ => Ok (repr v)
  | VBool _ => Ok (repr v)
  | _ => Raise ValidationError
  end.

(** A required string field with [min_length=1]. *)
Definition constr_min_length_1 (v : value) : result string :=
  s <- str_validator v ;;
  if is_empty s then Raise ValidationError else Ok s.

(** [Optional[str]]: a missing field and [None] give [None]. *)
Definition optional_str (v : option value) : result (option string) :=
  match v with
  | None => Ok None
  | Some VNone => Ok None
  | Some x => s <- str_validator x ;; Ok (Some s)
  end.

(** A required field of a mapping. *)
Definition required {A : Type} (kvs : list (string * value)) (k : string)
  (validate : value -> result A) : result A :=
  match lookup k kvs with
  | Some v => validate v
  | None => Raise ValidationError
  end.

(** An element of [links] is validated as a [Link]. (It is first tried as
    a [PaginationLink], which needs a [method] field that no link of the
    module has.) The module only hands over mappings and [None]. *)
Definition validate_Link (v : value) : result Link :=
  match v with
  | VDict kvs =>
      href <- required kvs "href" constr_min_length_1 ;;
      rel <- required kvs "rel" constr_min_length_1 ;;
      link_type <- optional_str (lookup "type" kvs) ;;
      title <- optional_str (lookup "title" kvs) ;;
      Ok (mkLink href rel link_type title)
  | _ => Raise ValidationError
  end.

(** The call [Catalog(type=.., id=.., description=.., stac_version=..,
    links=..)]. The module passes for [type] and [stac_version] the values
    the class has as constants, which it accepts. *)
Definition Catalog_new (type : string) (id description : value) (stac_version : string)
  (links : list value) : result Catalog :=
  id <- constr_min_length_1 id ;;
  description <- constr_min_length_1 description ;;
  links <- mapM validate_Link links ;;
  Ok (mkCatalog type id description stac_version links).

(** ** [stac_fastapi/types/hierarchy.py] *)

(** The three [TypedDict] classes. Calling one builds a plain [dict] with
    the keyword arguments in the order they are written. *)
Definition BrowsableNode (children : list value) (items : value) : value :=
  VDict [("children", VList children); ("items", items)].

Definition CollectionNode (collection_id : value) (children : list value) (items : value)
  : value :=
  VDict [("collection_id", collection_id); ("children", VList children); ("items", items)].

Definition CatalogNode (catalog_id : value) (children : list value) (items title description : value)
  : value :=
  VDict [("catalog_id", catalog_id); ("children", VList children); ("items", items);
         ("title", title); ("description", description)].

(** [ItemPath = Tuple[str, str]]: the pair [(collection_id, item_id)] that
    names an item. What is loaded from JSON is a two-element list, which is
    indexed as a tuple is. *)
Definition ItemPath (collection_id item_id : string) : value :=
  VList [VStr collection_id; VStr item_id].

(** [a or b] where [b] is evaluated only when [a] is false. *)
Definition or_else (a : value) (b : result value) : result value :=
  if truthy a then Ok a else b.

(** [sep.join(l)] on values: every element has to be a [str]. *)
Definition join_values (sep : string) (l : list value) : result value :=
  parts <- mapM (fun v => match v with VStr s => Ok s | _ => Raise TypeError end) l ;;
  Ok (VStr (join sep parts)).

(** A link, the literal [{"rel": .., "type": .., "title": .., "href": ..}]. *)
Definition titled_link (rel : string) (title href : value) : value :=
  VDict [("rel", VStr rel); ("type", VStr MimeTypes_json); ("title", title); ("href", href)].

(** A link without title. *)
Definition plain_link (rel : string) (href : value) : value :=
  VDict [("rel", VStr rel); ("type", VStr MimeTypes_json); ("href", href)].

Definition browsable_child_link (node : value) (base_url : string) : result value :=
  is_collection <- contains "collection_id" node ;;
  if is_collection then
    title <- (t <- get node "title" ;; or_else t (get node "collection_id")) ;;
    collection_id <- getitem node "collection_id" ;;
    href <- urljoin_call
              [VList [VStr base_url; VStr ("collections/" ++ format_value collection_id)]] ;;
    Ok (titled_link Relations_child title href)
  else
    is_catalog <- contains "catalog_id" node ;;
    if is_catalog then
      title <- (t <- get node "title" ;; or_else t (get node "catalog_id")) ;;
      catalog_id <- getitem node "catalog_id" ;;
      href <- join_values "/" [VStr (strip "/" base_url); catalog_id] ;;
      Ok (titled_link Relations_child title href)
    else Ok VNone.

Definition browsable_item_link (item_path : value) (base_url : string) : result value :=
  collection_id <- getindex item_path 0 ;;
  item_id <- getindex item_path 1 ;;
  href <- urljoin_call
            [VStr base_url;
             VStr ("collections/" ++ format_value collection_id
                   ++ "/items/" ++ format_value item_id)] ;;
  Ok (plain_link Relations_item href).

Section BrowsableCatalog.

(** [STAC_VERSION] of [stac_pydantic.version], a fixed string. *)
Variable STAC_VERSION : string.

Definition browsable_catalog (node : value) (catalog_path base_url : string)
  : result Catalog :=
  children <- getitem node "children" ;;
  children <- iter children ;;
  children_links <- mapM (fun child => browsable_child_link child base_url) children ;;
  items <- getitem node "items" ;;
  items <- iter items ;;
  item_links <- mapM (fun item => browsable_item_link item base_url) items ;;
  self_href <- urljoin_call [VStr base_url; VStr ("/catalogs/" ++ strip "/" catalog_path)] ;;
  let standard_links :=
    [plain_link Relations_root (VStr base_url); plain_link Relations_self self_href] in
  catalog_id <- getitem node "catalog_id" ;;
  description <-
    (d <- get node "description" ;;
     or_else d (catalog_id <- getitem node "catalog_id" ;;
                Ok (VStr ("Generated description for " ++ format_value catalog_id)))) ;;
  Catalog_new "Catalog" catalog_id description STAC_VERSION
    (children_links ++ item_links ++ standard_links)%list.

End BrowsableCatalog.

(** [fuel] is the number of nested calls the interpreter still allows: when
    none is left the call raises [RecursionError]. *)
Fixpoint parse_hierarchy (fuel : nat) (d : value) : result value :=
  match fuel with
  | O => Raise RecursionError
  | S fuel' =>
      has_children <- contains "children" d ;;
      children <-
        (if has_children then
           children <- getitem d "children" ;;
           children <- iter children ;;
           mapM (parse_hierarchy fuel') children
         else Ok []) ;;
      is_collection <- contains "collection_id" d ;;
      if is_collection then
        collection_id <- getitem d "collection_id" ;;
        items <- get d "items" ;;
        Ok (CollectionNode collection_id children items)
      else
        is_catalog <- contains "catalog_id" d ;;
        if is_catalog then
          catalog_id <- getitem d "catalog_id" ;;
          items <- get d "items" ;;
          title <- get d "title" ;;
          description <- get d "description" ;;
          Ok (CatalogNode catalog_id children items title description)
        else
          items <- get d "items" ;;
          Ok (BrowsableNode children items)
  end.

(** ** What the statements below speak about *)

(** An input mapping, as the parser expects it: a mapping whose [children]
    entry, when there is one, is a list of input mappings. *)
Unset Elimination Schemes.
Inductive input_mapping : value -> Prop :=
| input_leaf (kvs : list (string * value)) :
    lookup "children" kvs = None ->
    input_mapping (VDict kvs)
| input_node (kvs : list (string * value)) (children : list value) :
    lookup "children" kvs = Some (VList children) ->
    Forall input_mapping children ->
    input_mapping (VDict kvs).
Set Elimination Schemes.

(** How deep lists and mappings are nested in a value. *)
Fixpoint depth (v : value) : nat :=
  match v with
  | VList l => S (list_max (map depth l))
  | VDict kvs => S (list_max (map (fun kv => depth (snd kv)) kvs))
  | _ => 0
  end.

(** No character of [s] is in [banned]. *)
Definition free_of (banned s : string) : bool :=
  forallb_str (fun c => negb (has_char c banned)) s.

(** The characters [urlsplit] drops from a URL: tab, carriage return, line
    feed. *)
Definition unsafe_chars : string :=
  String (ascii_of_nat 9) (String (ascii_of_nat 13) (String (ascii_of_nat 10) EmptyString)).

(** A path that [urlparse] leaves in one piece: no query, fragment or
    parameter delimiter and no character that gets dropped. *)
Definition plain_path (s : string) : bool := free_of ("?#;" ++ unsafe_chars) s.

(** An identifier that is one plain, proper path segment. *)
Definition plain_segment (s : string) : bool :=
  free_of ("/?#;" ++ unsafe_chars) s && negb (str_in s ["."; ".."]).

(** No segment of the path is [.] or [..]. *)
Definition no_dot_segment (s : string) : bool :=
  forallb (fun seg => negb (str_in seg ["."; ".."])) (split "/" s).

(** [urlparse] accepts the URL (it raises on a network location with an
    unmatched square bracket). *)
Definition parses (url : string) : bool :=
  match urlparse url EmptyString true with
  | Ok _ => true
  | Raise _ => false
  end.

(** The value under [k] in a link or a node. *)
Definition field (k : string) (v : value) : option value :=
  match v with
  | VDict kvs => lookup k kvs
  | _ => None
  end.

(** [d.get(k)] on the entries of a mapping. *)
Definition entry (k : string) (kvs : list (string * value)) : value :=
  match lookup k kvs with
  | Some x => x
  | None => VNone
  end.

(** The node the classification rule builds from the entries of a mapping
    and its parsed children. *)
Definition node_of (kvs : list (string * value)) (children : list value) : value :=
  match lookup "collection_id" kvs with
  | Some collection_id => CollectionNode collection_id children (entry "items" kvs)
  | None =>
      match lookup "catalog_id" kvs with
      | Some catalog_id =>
          CatalogNode catalog_id children (entry "items" kvs)
            (entry "title" kvs) (entry "description" kvs)
      | None => BrowsableNode children (entry "items" kvs)
      end
  end.

(** The example of the specification:
    [{catalog_id: root, children: [{collection_id: c1}], items: [[c1, item1]]}]. *)
Definition spec_example : value :=
  VDict [("catalog_id", VStr "root");
         ("children", VList [VDict [("collection_id", VStr "c1")]]);
         ("items", VList [VList [VStr "c1"; VStr "item1"]])].

(** The keys of a mapping, in order. *)
Definition keys (v : value) : list string :=
  match v with
  | VDict kvs => map fst kvs
  | _ => []
  end.

(** A value of type [Optional[str]]. *)
Definition optional_string (v : value) : bool :=
  match v with
  | VNone => true
  | VStr _ => true
  | _ => false
  end.

(** A child that [browsable_child_link] treats as a catalog and whose link
    is a valid one: a mapping without [collection_id] whose [catalog_id] is
    a string and whose [title], if any, is a string or [None]. *)
Definition catalog_child (v : value) : bool :=
  match v with
  | VDict kvs =>
      match lookup "collection_id" kvs, lookup "catalog_id" kvs with
      | None, Some (VStr _) => optional_string (entry "title" kvs)
      | _, _ => false
      end
  | _ => false
  end.

(** A list with an element at index 0 and at index 1. *)
Definition has_two (v : value) : bool :=
  match v with
  | VList (_ :: _ :: _) => true
  | _ => false
  end.

(** ** The model at work *)

Example urljoin_directory :
  urljoin "https://example.com/api/" "collections/c1/items/item1" true
  = Ok "https://example.com/api/collections/c1/items/item1".
Proof. reflexivity. Qed.

(** Without a trailing slash the last segment of the base is replaced. *)
Example urljoin_file :
  urljoin "https://example.com/api" "collections/c1" true
  = Ok "https://example.com/collections/c1".
Proof. reflexivity. Qed.

Example urljoin_rooted :
  urljoin "https://example.com/api/v1/" "/catalogs/root" true
  = Ok "https://example.com/catalogs/root".
Proof. reflexivity. Qed.

Example urljoin_dot_segments :
  urljoin "https://example.com/" "collections/../items/x" true
  = Ok "https://example.com/items/x".
Proof. reflexivity. Qed.

Example urljoin_empty_segment :
  urljoin "https://example.com/" "collections//items/x" true
  = Ok "https://example.com/collections/items/x".
Proof. reflexivity. Qed.

Example urljoin_empty_query :
  urljoin "https://example.com/" "/catalogs/a?" true
  = Ok "https://example.com/catalogs/a".
Proof. reflexivity. Qed.

Example urljoin_unmatched_bracket :
  urljoin "http://[::1/" "/catalogs/a" true = Raise ValueError.
Proof. reflexivity. Qed.

Example urljoin_one_argument :
  urljoin_call [VList [VStr "https://example.com/"; VStr "collections/c1"]]
  = Raise TypeError.
Proof. reflexivity. Qed.

Example parse_spec_example :
  parse_hierarchy 4 spec_example
  = Ok (CatalogNode (VStr "root") [CollectionNode (VStr "c1") [] VNone]
          (VList [VList [VStr "c1"; VStr "item1"]]) VNone VNone).
Proof. reflexivity. Qed.

(** A child that is not a mapping is not parsed. *)
Example parse_malformed_child :
  parse_hierarchy 4 (VDict [("children", VList [VInt 5])]) = Raise TypeError.
Proof. reflexivity. Qed.

Example parse_out_of_budget :
  parse_hierarchy 1 spec_example = Raise RecursionError.
Proof. reflexivity. Qed.

(** A parsed catalog without [items] cannot be turned into a catalog: its
    [items] is [None], which is not iterable. *)
Example catalog_of_node_without_items :
  browsable_catalog "1.0.0" (CatalogNode (VStr "x") [] VNone VNone VNone)
    "x" "https://example.com/"
  = Raise TypeError.
Proof. reflexivity. Qed.

(** A child without id gets no link: the function falls off its end and
    returns [None]. *)
Example child_link_of_plain_node :
  browsable_child_link (BrowsableNode [] VNone) "https://example.com/" = Ok VNone.
Proof. reflexivity. Qed.

(** ** Strings: concatenation, prefixes, occurrences *)

Lemma append_nil_r (s : string) : s ++ EmptyString = s.
Proof. induction s as [|a s IH]; simpl; [reflexivity | now rewrite IH]. Qed.

Lemma append_assoc (a b c : string) : (a ++ b) ++ c = a ++ (b ++ c).
Proof. induction a as [|x a IH]; simpl; [reflexivity | now rewrite IH]. Qed.

Lemma is_empty_app_r (a b : string) : is_empty b = false -> is_empty (a ++ b) = false.
Proof. destruct a; simpl; auto. Qed.

Lemma prefix_spec (p s : string) : prefix p s = true <-> exists t, s = p ++ t.
Proof.
  revert s; induction p as [|a p IH]; intros s.
  - simpl. destruct s; split; intros; eauto.
  - destruct s as [|b s]; simpl.
    + split; [discriminate | intros [t Ht]; discriminate].
    + destruct (ascii_dec a b) as [->|Hne].
      * rewrite IH. split; intros [t Ht]; exists t; [now rewrite Ht | now inversion Ht].
      * split; [discriminate | intros [t Ht]; inversion Ht; congruence].
Qed.

Lemma str_contains_unfold (p s : string) :
  str_contains p s =
  prefix p s || match s with
                | EmptyString => false
                | String _ s' => str_contains p s'
                end.
Proof. destruct s; simpl; [destruct (prefix p EmptyString) | destruct (prefix p (String a s))]; reflexivity. Qed.

Lemma str_contains_spec (p s : string) :
  str_contains p s = true <-> exists a b, s = a ++ p ++ b.
Proof.
  induction s as [|c s IH]; rewrite str_contains_unfold, orb_true_iff, prefix_spec.
  - split.
    + intros [[t Ht]|H]; [|discriminate]. exists EmptyString, t; exact Ht.
    + intros (a & b & H). left. destruct a; [|discriminate]. eauto.
  - rewrite IH. split.
    + intros [[t Ht]|(a & b & H)].
      * exists EmptyString, t; exact Ht.
      * exists (String c a), b. simpl. now rewrite H.
    + intros (a & b & H). destruct a as [|x a].
      * left. eauto.
      * right. inversion H. eauto.
Qed.

Lemma str_contains_false_sub (p a s b : string) :
  str_contains p (a ++ s ++ b) = false -> str_contains p s = false.
Proof.
  intros H. destruct (str_contains p s) eqn:E; [|reflexivity].
  apply str_contains_spec in E. destruct E as (x & y & ->).
  rewrite <- H. symmetry. apply str_contains_spec.
  exists (a ++ x), (y ++ b). now rewrite !append_assoc.
Qed.

Lemma endswith_unfold (p s : string) :
  endswith p s =
  String.eqb s p || match s with
                    | EmptyString => false
                    | String _ s' => endswith p s'
                    end.
Proof. destruct s; simpl; [destruct (String.eqb EmptyString p) | destruct (String.eqb (String a s) p)]; reflexivity. Qed.

Lemma endswith_app (a p : string) : endswith p (a ++ p) = true.
Proof.
  induction a as [|c a IH]; rewrite endswith_unfold.
  - simpl. now rewrite String.eqb_refl.
  - simpl String.append. cbv iota beta. rewrite IH. apply orb_true_r.
Qed.

Lemma has_char_app (c : ascii) (a b : string) :
  has_char c (a ++ b) = has_char c a || has_char c b.
Proof. induction a as [|x a IH]; simpl; [reflexivity | now rewrite IH, orb_assoc]. Qed.

Lemma append_eq_append (a b c d : string) :
  a ++ b = c ++ d ->
  exists l, (a = c ++ l /\ d = l ++ b) \/ (c = a ++ l /\ b = l ++ d).
Proof.
  revert c; induction a as [|x a IH]; intros c H.
  - exists c. right. simpl in *. auto.
  - destruct c as [|y c].
    + exists (String x a). left. simpl in *. auto.
    + simpl in H. inversion H; subst. destruct (IH c H2) as [l [[-> ->]|[-> ->]]];
        exists l; [left | right]; auto.
Qed.

Lemma forallb_str_app (f : ascii -> bool) (a b : string) :
  forallb_str f (a ++ b) = forallb_str f a && forallb_str f b.
Proof. induction a as [|x a IH]; simpl; [reflexivity | now rewrite IH, andb_assoc]. Qed.

Lemma free_of_app (banned a b : string) :
  free_of banned (a ++ b) = free_of banned a && free_of banned b.
Proof. apply forallb_str_app. Qed.

Lemma free_of_has_char (banned s : string) (c : ascii) :
  free_of banned s = true -> has_char c banned = true -> has_char c s = false.
Proof.
  intros Hf Hc. induction s as [|a s IH]; simpl in *; [reflexivity|].
  apply andb_true_iff in Hf. destruct Hf as [Ha Hs]. rewrite (IH Hs), orb_false_r.
  destruct (Ascii.eqb_spec a c) as [->|]; [|reflexivity].
  rewrite Hc in Ha. discriminate.
Qed.

(** *** [find], [split] and [join] *)

Lemma cut_none (c : ascii) (s : string) : has_char c s = false -> cut c s = None.
Proof.
  induction s as [|a s IH]; simpl; [reflexivity|]. intros H.
  apply orb_false_iff in H. destruct H as [-> H]. now rewrite (IH H).
Qed.

Lemma cut_app (c : ascii) (q s : string) :
  has_char c q = false ->
  cut c (q ++ s) = match cut c s with
                   | Some (l, r) => Some (q ++ l, r)
                   | None => None
                   end.
Proof.
  induction q as [|a q IH]; simpl; intros H.
  - destruct (cut c s) as [[l r]|]; reflexivity.
  - apply orb_false_iff in H. destruct H as [-> H]. rewrite (IH H).
    destruct (cut c s) as [[l r]|]; reflexivity.
Qed.

Lemma remove_char_id (c : ascii) (s : string) : has_char c s = false -> remove_char c s = s.
Proof.
  induction s as [|a s IH]; simpl; [reflexivity|]. intros H.
  apply orb_false_iff in H. destruct H as [-> H]. now rewrite (IH H).
Qed.

Lemma remove_unsafe_id (banned s : string) :
  free_of (banned ++ unsafe_chars) s = true -> remove_unsafe s = s.
Proof.
  intros H. unfold remove_unsafe, UNSAFE_URL_BYTES_TO_REMOVE. simpl.
  rewrite !remove_char_id; try reflexivity;
    repeat (rewrite remove_char_id);
    try (apply (free_of_has_char _ _ _ H); rewrite has_char_app; apply orb_true_iff; right;
         reflexivity).
Qed.

Lemma split_not_nil (c : ascii) (s : string) : split c s <> [].
Proof.
  destruct s as [|a s]; simpl; [discriminate|].
  destruct (Ascii.eqb a c); [discriminate|]. destruct (split c s); discriminate.
Qed.

Lemma split_no_sep (c : ascii) (s : string) : has_char c s = false -> split c s = [s].
Proof.
  induction s as [|a s IH]; simpl; [reflexivity|]. intros H.
  apply orb_false_iff in H. destruct H as [-> H]. now rewrite (IH H).
Qed.

Lemma split_app_sep (c : ascii) (a b : string) :
  has_char c a = false -> split c (a ++ String c b) = a :: split c b.
Proof.
  induction a as [|x a IH]; simpl; intros H.
  - now rewrite Ascii.eqb_refl.
  - apply orb_false_iff in H. destruct H as [-> H]. now rewrite (IH H).
Qed.

Lemma join_split (c : ascii) (s : string) : join (String c EmptyString) (split c s) = s.
Proof.
  unfold join. induction s as [|a s IH]; [reflexivity|]. simpl split.
  destruct (Ascii.eqb_spec a c) as [->|Hne].
  - pose proof (split_not_nil c s) as Hn. destruct (split c s) as [|h t]; [congruence|].
    change (String.concat (String c EmptyString) (EmptyString :: h :: t))
      with (EmptyString ++ String c EmptyString ++ String.concat (String c EmptyString) (h :: t)).
    now rewrite IH.
  - pose proof (split_not_nil c s) as Hn. destruct (split c s) as [|h t]; [congruence|].
    destruct t; simpl in *; now rewrite <- IH.
Qed.

Lemma join_app (sep : string) (pre l : list string) :
  l <> [] -> exists x, join sep (pre ++ l) = x ++ join sep l.
Proof.
  intros Hl. unfold join. induction pre as [|h pre IH].
  - exists EmptyString. reflexivity.
  - destruct IH as [x Hx]. simpl app.
    destruct (pre ++ l)%list as [|y ys] eqn:E.
    + destruct pre; [simpl in E; congruence | discriminate].
    + exists (h ++ sep ++ x). change (String.concat sep (h :: y :: ys)) with (h ++ sep ++ String.concat sep (y :: ys)).
      now rewrite Hx, !append_assoc.
Qed.

(** *** Resolution of dot segments *)

Lemma resolve_plain (segments acc : list string) :
  forallb (fun seg => negb (str_in seg ["."; ".."])) segments = true ->
  fold_left resolve_segment segments acc = (acc ++ segments)%list.
Proof.
  revert acc; induction segments as [|seg l IH]; intros acc H; simpl.
  - now rewrite app_nil_r.
  - simpl in H. apply andb_true_iff in H. destruct H as [Hs Hl].
    rewrite (IH _ Hl). unfold resolve_segment. unfold str_in in Hs. simpl in Hs.
    destruct (String.eqb seg "..") eqn:E1, (String.eqb seg ".") eqn:E2;
      try discriminate Hs.
    now rewrite <- app_assoc.
Qed.

Lemma last_in_forallb (f : string -> bool) (l : list string) :
  l <> [] -> forallb f l = true -> f (last l EmptyString) = true.
Proof.
  intros Hn H. rewrite forallb_forall in H. apply H.
  destruct l as [|h t]; [congruence|]. clear.
  revert h; induction t as [|x t IH]; intros h; simpl; [auto|].
  right. apply IH.
Qed.

Lemma filter_middle_tail (pre : list string) (a b c d : string) :
  is_empty a = false -> is_empty b = false -> is_empty c = false ->
  exists pre', filter_middle (pre ++ [a; b; c; d]) = (pre' ++ [a; b; c; d])%list.
Proof.
  intros Ha Hb Hc. destruct pre as [|h t].
  - exists []. simpl. now rewrite Hb, Hc.
  - exists (h :: filter (fun s => negb (is_empty s)) t). unfold filter_middle.
    simpl app. destruct (t ++ [a; b; c; d])%list as [|y ys] eqn:E.
    + destruct t; discriminate.
    + rewrite <- E.
      replace (t ++ [a; b; c; d])%list with ((t ++ [a; b; c]) ++ [d])%list
        by (now rewrite <- app_assoc).
      rewrite removelast_last, last_last, filter_app. simpl. rewrite Ha, Hb, Hc. simpl.
      now rewrite <- !app_assoc.
Qed.

(** *** [urlparse] and [urlunparse] on a plain path *)

Lemma suffix_refl (p : string) : exists x, p = x ++ p.
Proof. exists EmptyString. reflexivity. Qed.

Lemma suffix_app (p a s : string) : (exists x, s = x ++ p) -> exists x, a ++ s = x ++ p.
Proof. intros [x ->]. exists (a ++ x). now rewrite append_assoc. Qed.

Lemma suffix_cons (p : string) (c : ascii) (s : string) :
  (exists x, s = x ++ p) -> exists x, String c s = x ++ p.
Proof. intros [x ->]. exists (String c x). reflexivity. Qed.

Lemma urlunparse_path (scheme netloc path : string) :
  exists x, urlunparse (scheme, netloc, path, EmptyString, EmptyString, EmptyString) = x ++ path.
Proof.
  unfold urlunparse, urlunsplit. simpl negb. cbv iota.
  repeat match goal with
         | |- context [if ?b then _ else _] => destruct b
         end;
    repeat first [apply suffix_refl | apply suffix_app | apply suffix_cons].
Qed.

(** A URL without delimiters, whose text before the first colon (if any)
    cannot be a scheme and which does not start with two slashes, is all
    path. *)
Lemma urlparse_plain (q s bscheme : string) :
  plain_path (q ++ s) = true ->
  has_char ":" q = false ->
  forallb_str (fun c => has_char c scheme_chars) q = false ->
  startswith "//" (q ++ s) = false ->
  urlparse (q ++ s) bscheme true
  = Ok (remove_unsafe bscheme, EmptyString, q ++ s, EmptyString, EmptyString, EmptyString).
Proof.
  intros Hp Hq Hs H2. unfold urlparse, urlsplit.
  rewrite (remove_unsafe_id "?#;" (q ++ s) Hp).
  assert (Hscheme :
    match cut ":" (q ++ s) with
    | Some (head, rest) =>
        if negb (is_empty head) && forallb_str (fun c => has_char c scheme_chars) head
        then (lower head, rest) else (remove_unsafe bscheme, q ++ s)
    | None => (remove_unsafe bscheme, q ++ s)
    end = (remove_unsafe bscheme, q ++ s)).
  { rewrite (cut_app _ _ _ Hq). destruct (cut ":" s) as [[l r]|]; [|reflexivity].
    now rewrite forallb_str_app, Hs, andb_false_r. }
  rewrite Hscheme, H2. simpl bind.
  rewrite (cut_none "#"), (cut_none "?");
    try (apply (free_of_has_char _ _ _ Hp); reflexivity).
  simpl. rewrite (free_of_has_char _ _ ";" Hp eq_refl), andb_false_r. reflexivity.
Qed.

(** *** [urljoin] on the two kinds of path the module builds *)

Lemma urljoin_catalogs (base p r : string) :
  plain_path p = true ->
  no_dot_segment p = true ->
  urljoin base ("/catalogs/" ++ p) true = Ok r ->
  exists x, r = x ++ "/catalogs/" ++ p.
Proof.
  intros Hp Hd H. unfold urljoin in H.
  destruct (is_empty base); [inversion H; apply suffix_refl|].
  change (is_empty ("/catalogs/" ++ p)) with false in H. cbv iota in H.
  destruct (urlparse base EmptyString true)
    as [[[[[[bscheme bnetloc] bpath] bparams] bquery] bfragment]|e]; [|discriminate H].
  unfold bind at 1 in H.
  rewrite (urlparse_plain "/catalogs/" p) in H; try reflexivity;
    [|exact Hp].
  unfold bind in H.
  destruct (negb (String.eqb (remove_unsafe bscheme) bscheme)
            || negb (str_in (remove_unsafe bscheme) uses_relative));
    [inversion H; apply suffix_refl|].
  rewrite andb_false_r in H.
  change (is_empty ("/catalogs/" ++ p)) with false in H.
  change (startswith "/" ("/catalogs/" ++ p)) with true in H.
  cbv iota in H. rewrite andb_false_l in H.
  assert (Hseg : forallb (fun seg => negb (str_in seg ["."; ".."]))
                   (split "/" ("/catalogs/" ++ p)) = true).
  { change ("/catalogs/" ++ p) with (EmptyString ++ String "/" ("catalogs" ++ String "/" p)).
    rewrite !split_app_sep by reflexivity. exact Hd. }
  rewrite (resolve_plain _ _ Hseg) in H. rewrite app_nil_l in H.
  pose proof (last_in_forallb (fun seg => negb (str_in seg ["."; ".."])) _
                (split_not_nil _ _) Hseg) as Hl.
  apply negb_true_iff in Hl. rewrite Hl, join_split in H.
  change (is_empty ("/catalogs/" ++ p)) with false in H. cbv iota in H.
  match type of H with
  | Ok (urlunparse (?a, ?b, ?c, _, _, _)) = _ =>
      destruct (urlunparse_path a b c) as [x Hx]; rewrite Hx in H
  end.
  injection H as <-. exists x. reflexivity.
Qed.

Lemma free_of_weaken (c : ascii) (banned s : string) :
  free_of (String c banned) s = true -> free_of banned s = true.
Proof.
  unfold free_of. induction s as [|a s IH]; simpl; [reflexivity|].
  intros H. apply andb_true_iff in H. destruct H as [Ha Hs].
  rewrite (IH Hs), andb_true_r. apply negb_true_iff in Ha. apply orb_false_iff in Ha.
  destruct Ha as [_ Ha]. now rewrite Ha.
Qed.

Lemma last_app4 (pre : list string) (a b c d : string) :
  last (pre ++ [a; b; c; d]) EmptyString = d.
Proof.
  replace (pre ++ [a; b; c; d])%list with ((pre ++ [a; b; c]) ++ [d])%list
    by (now rewrite <- app_assoc).
  apply last_last.
Qed.

Lemma urljoin_item (base c i : string) :
  plain_segment c = true ->
  is_empty c = false ->
  plain_segment i = true ->
  parses base = true ->
  exists x,
    urljoin base ("collections/" ++ c ++ "/items/" ++ i) true
    = Ok (x ++ "collections/" ++ c ++ "/items/" ++ i).
Proof.
  intros Hc Hne Hi Hb.
  apply andb_true_iff in Hc. destruct Hc as [Hc Hcd]. apply negb_true_iff in Hcd.
  apply andb_true_iff in Hi. destruct Hi as [Hi Hid]. apply negb_true_iff in Hid.
  unfold urljoin.
  destruct (is_empty base); [exists EmptyString; reflexivity|].
  change (is_empty ("collections/" ++ c ++ "/items/" ++ i)) with false. cbv iota.
  unfold parses in Hb.
  destruct (urlparse base EmptyString true)
    as [[[[[[bscheme bnetloc] bpath] bparams] bquery] bfragment]|e]; [|discriminate Hb].
  unfold bind at 1.
  rewrite (urlparse_plain "collections/" (c ++ "/items/" ++ i)); try reflexivity.
  2:{ assert (Hc' : free_of ("?#;" ++ unsafe_chars) c = true)
        by exact (free_of_weaken _ _ _ Hc).
      assert (Hi' : free_of ("?#;" ++ unsafe_chars) i = true)
        by exact (free_of_weaken _ _ _ Hi).
      unfold plain_path. rewrite !free_of_app, Hc', Hi'. reflexivity. }
  unfold bind.
  destruct (negb (String.eqb (remove_unsafe bscheme) bscheme)
            || negb (str_in (remove_unsafe bscheme) uses_relative));
    [exists EmptyString; reflexivity|].
  rewrite andb_false_r.
  change (is_empty ("collections/" ++ c ++ "/items/" ++ i)) with false.
  change (startswith "/" ("collections/" ++ c ++ "/items/" ++ i)) with false.
  cbv iota. rewrite andb_false_l.
  assert (Hsplit : split "/" ("collections/" ++ c ++ "/items/" ++ i)
                   = ["collections"; c; "items"; i]).
  { change ("collections/" ++ c ++ "/items/" ++ i)
      with ("collections" ++ String "/" (c ++ String "/" ("items" ++ String "/" i))).
    rewrite !split_app_sep, split_no_sep; try reflexivity;
      try (apply (free_of_has_char _ _ "/" Hc); reflexivity);
      apply (free_of_has_char _ _ "/" Hi); reflexivity. }
  rewrite Hsplit.
  match goal with
  | |- context [filter_middle (?pre ++ _)] =>
      destruct (filter_middle_tail pre "collections" c "items" i eq_refl Hne eq_refl)
        as [pre' ->]
  end.
  rewrite fold_left_app, last_app4, resolve_plain.
  2:{ cbn [forallb]. rewrite Hcd, Hid. reflexivity. }
  rewrite Hid.
  destruct (join_app "/" (fold_left resolve_segment pre' []) ["collections"; c; "items"; i])
    as [x Hx]; [discriminate|].
  rewrite Hx.
  change (join "/" ["collections"; c; "items"; i])
    with ("collections/" ++ c ++ "/items/" ++ i).
  rewrite is_empty_app_r by reflexivity.
  match goal with
  | |- context [urlunparse (?a, ?b, ?p, _, _, _)] =>
      destruct (urlunparse_path a b p) as [y Hy]; rewrite Hy
  end.
  exists (y ++ x). now rewrite append_assoc.
Qed.

(** ** The parser *)

Lemma mapM_Forall2 {A B : Type} (f : A -> result B) (l : list A) (ys : list B) :
  mapM f l = Ok ys <-> Forall2 (fun x y => f x = Ok y) l ys.
Proof.
  revert ys; induction l as [|x l IH]; intros ys; simpl.
  - split; intros H; [injection H as <-; constructor | inversion H; reflexivity].
  - split.
    + destruct (f x) as [y|e] eqn:E; simpl; [|discriminate].
      destruct (mapM f l) as [zs|e]; simpl; [|discriminate].
      intros H. injection H as <-. constructor; [exact E | now apply IH].
    + intros H. inversion H as [|x' y l' zs Hy Hzs]; subst.
      rewrite Hy. simpl. apply IH in Hzs. rewrite Hzs. reflexivity.
Qed.

Lemma mapM_raise {A B : Type} (f : A -> result B) (l : list A) (e : exn) :
  mapM f l = Raise e -> exists x, In x l /\ f x = Raise e.
Proof.
  induction l as [|x l IH]; simpl; [discriminate|].
  destruct (f x) as [y|e'] eqn:E; simpl.
  - destruct (mapM f l) as [zs|e'']; simpl; [discriminate|].
    intros H. injection H as <-. destruct (IH eq_refl) as (z & Hz & Hfz). eauto.
  - intros H. injection H as <-. eauto.
Qed.

Lemma mapM_total {A B : Type} (f : A -> result B) (l : list A) :
  Forall (fun x => exists y, f x = Ok y) l -> exists ys, mapM f l = Ok ys.
Proof.
  induction 1 as [|x l [y Hy] _ [ys Hys]]; simpl.
  - eauto.
  - rewrite Hy, Hys. simpl. eauto.
Qed.

Lemma mapM_raise_in {A B : Type} (f : A -> result B) (l : list A) (x : A) (e : exn) :
  In x l -> f x = Raise e -> exists e', mapM f l = Raise e'.
Proof.
  intros Hin Hx. induction l as [|y l IH]; [destruct Hin|]. simpl.
  destruct (f y) as [z|e'] eqn:E; simpl; [|eauto].
  destruct Hin as [->|Hin]; [congruence|].
  destruct (IH Hin) as [e' He']. rewrite He'. simpl. eauto.
Qed.

Lemma depth_in_list (x : value) (l : list value) : In x l -> depth x < depth (VList l).
Proof.
  intros H. simpl. apply Nat.lt_succ_r.
  assert (Hall : Forall (fun k => k <= list_max (map depth l)) (map depth l))
    by (apply list_max_le; lia).
  rewrite Forall_forall in Hall. apply Hall. now apply in_map.
Qed.

Lemma lookup_in (k : string) (kvs : list (string * value)) (v : value) :
  lookup k kvs = Some v -> exists k', In (k', v) kvs.
Proof.
  induction kvs as [|[k' v'] tl IH]; simpl; [discriminate|].
  destruct (String.eqb k' k).
  - intros H. injection H as ->. exists k'. now left.
  - intros H. destruct (IH H) as [k'' Hk]. exists k''. now right.
Qed.

Lemma depth_lookup (k : string) (kvs : list (string * value)) (v : value) :
  lookup k kvs = Some v -> depth v < depth (VDict kvs).
Proof.
  intros H. simpl. apply Nat.lt_succ_r.
  assert (Hall : Forall (fun n => n <= list_max (map (fun kv => depth (snd kv)) kvs))
                   (map (fun kv => depth (snd kv)) kvs))
    by (apply list_max_le; lia).
  rewrite Forall_forall in Hall. apply Hall.
  destruct (lookup_in _ _ _ H) as [k' Hk].
  apply in_map_iff. exists (k', v). auto.
Qed.

(** What a mapping is parsed to, given its parsed children. *)
Lemma parse_hierarchy_dict (fuel : nat) (kvs : list (string * value)) :
  parse_hierarchy (S fuel) (VDict kvs)
  = children <- match lookup "children" kvs with
                | Some v => l <- iter v ;; mapM (parse_hierarchy fuel) l
                | None => Ok []
                end ;;
    Ok (node_of kvs children).
Proof.
  unfold node_of, entry. simpl.
  destruct (lookup "children" kvs) as [v|]; simpl.
  - destruct (iter v) as [l|e]; simpl; [|reflexivity].
    destruct (mapM (parse_hierarchy fuel) l) as [ns|e]; simpl; [|reflexivity].
    destruct (lookup "collection_id" kvs); simpl; [reflexivity|].
    destruct (lookup "catalog_id" kvs); reflexivity.
  - destruct (lookup "collection_id" kvs); simpl; [reflexivity|].
    destruct (lookup "catalog_id" kvs); reflexivity.
Qed.

(** A larger recursion budget does not change a result. *)
Lemma parse_hierarchy_mono (fuel : nat) (d node : value) :
  parse_hierarchy fuel d = Ok node -> parse_hierarchy (S fuel) d = Ok node.
Proof.
  revert d node; induction fuel as [|fuel IH]; intros d node H; [discriminate H|].
  assert (Hmap : forall l ns, mapM (parse_hierarchy fuel) l = Ok ns ->
                              mapM (parse_hierarchy (S fuel)) l = Ok ns).
  { intros l ns Hl. apply mapM_Forall2. apply mapM_Forall2 in Hl.
    induction Hl; constructor; auto. }
  destruct d as [|b|z|s|l|kvs]; try exact H.
  rewrite parse_hierarchy_dict in H |- *.
  destruct (lookup "children" kvs) as [v|]; [|exact H].
  destruct (iter v) as [l|e]; unfold bind in H |- *; [|discriminate H].
  destruct (mapM (parse_hierarchy fuel) l) as [ns|e] eqn:E; [|discriminate H].
  rewrite (Hmap _ _ E). exact H.
Qed.

(** On an input mapping, with a recursion budget above its depth, the
    parser returns the node [node_of] describes, whose children are the
    parsed children of the input. *)
Lemma parse_hierarchy_input (fuel : nat) (d : value) :
  input_mapping d ->
  depth d < fuel ->
  exists kvs children,
    d = VDict kvs /\
    parse_hierarchy fuel d = Ok (node_of kvs children) /\
    match lookup "children" kvs with
    | Some v => exists cs, v = VList cs /\
                           Forall2 (fun c n => parse_hierarchy fuel c = Ok n) cs children
    | None => children = []
    end.
Proof.
  revert d; induction fuel as [|fuel IH]; intros d Hd Hlt; [lia|].
  inversion Hd as [kvs Hk|kvs cs Hk Hcs]; subst d.
  - exists kvs, []. rewrite parse_hierarchy_dict, Hk. simpl. auto.
  - assert (Hsub : Forall (fun c => exists n, parse_hierarchy fuel c = Ok n) cs).
    { rewrite Forall_forall in Hcs |- *. intros c Hc.
      assert (Hdc : depth c < fuel).
      { pose proof (depth_in_list _ _ Hc). pose proof (depth_lookup _ _ _ Hk). lia. }
      destruct (IH c (Hcs c Hc) Hdc) as (kvs' & ns & _ & Hp & _). eauto. }
    destruct (mapM_total _ _ Hsub) as [ns Hns].
    exists kvs, ns. rewrite parse_hierarchy_dict, Hk. simpl iter. unfold bind at 2.
    rewrite Hns. simpl. split; [reflexivity|]. split; [reflexivity|].
    exists cs. split; [reflexivity|].
    apply mapM_Forall2 in Hns. clear - Hns.
    induction Hns as [|c n cs ns Hc _ IHns]; constructor;
      [apply parse_hierarchy_mono; exact Hc | exact IHns].
Qed.

(** With a recursion budget above the depth of its argument the parser
    never exhausts it, whatever the argument. *)
Lemma parse_hierarchy_within_budget (fuel : nat) (d : value) :
  depth d < fuel -> parse_hierarchy fuel d <> Raise RecursionError.
Proof.
  revert d; induction fuel as [|fuel IH]; intros d Hlt; [lia|].
  destruct d as [|b|z|s|l|kvs]; try (simpl; discriminate).
  - simpl. destruct (str_contains "children" s); simpl; [discriminate|].
    destruct (str_contains "collection_id" s); simpl; [discriminate|].
    destruct (str_contains "catalog_id" s); simpl; discriminate.
  - simpl.
    destruct (existsb _ l); simpl; [discriminate|].
    destruct (existsb _ l); simpl; [discriminate|].
    destruct (existsb _ l); simpl; discriminate.
  - rewrite parse_hierarchy_dict.
    destruct (lookup "children" kvs) as [v|] eqn:Hk; [|simpl; discriminate].
    pose proof (depth_lookup _ _ _ Hk) as Hv.
    destruct (iter v) as [cs|e] eqn:Hit.
    + unfold bind at 2.
      destruct (mapM (parse_hierarchy fuel) cs) as [ns|e] eqn:Hm; [simpl; discriminate|].
      simpl. intros He. injection He as ->.
      destruct (mapM_raise _ _ _ Hm) as (c & Hc & Hraise).
      apply (IH c); [|exact Hraise].
      destruct v as [|b|z|s|l|kvs']; simpl in Hit; try discriminate Hit;
        injection Hit as <-.
      * assert (depth c = 0); [|lia]. clear - Hc. induction s; simpl in Hc; [tauto|].
        destruct Hc as [<-|Hc]; auto.
      * pose proof (depth_in_list _ _ Hc). lia.
      * apply in_map_iff in Hc. destruct Hc as (kv & <- & _). simpl. lia.
    + destruct v; simpl in Hit; try discriminate Hit; injection Hit as <-; simpl; discriminate.
Qed.

Lemma spec_example_input_mapping : input_mapping spec_example.
Proof.
  apply input_node with (children := [VDict [("collection_id", VStr "c1")]]);
    [reflexivity|].
  constructor; [|constructor]. apply input_leaf. reflexivity.
Defined.

(** C6. Classification. On every input mapping (parsed with a recursion
    budget above its depth) the parser returns a node of exactly one of the
    three kinds, chosen by the first of [collection_id], [catalog_id] that
    the input contains: with [collection_id] a CollectionNode carrying the
    input's value and no [catalog_id]; with [catalog_id] and no
    [collection_id] a CatalogNode whose [title] and [description] are the
    input's whenever the input has them; with neither, a plain
    BrowsableNode. *)
Theorem parse_hierarchy_classifies (fuel : nat) (kvs : list (string * value)) :
  input_mapping (VDict kvs) ->
  depth (VDict kvs) < fuel ->
  exists node children,
    parse_hierarchy fuel (VDict kvs) = Ok node /\
    (forall cid, lookup "collection_id" kvs = Some cid ->
       node = CollectionNode cid children (entry "items" kvs) /\
       field "collection_id" node = Some cid /\
       field "catalog_id" node = None) /\
    (lookup "collection_id" kvs = None ->
     forall cid, lookup "catalog_id" kvs = Some cid ->
       node = CatalogNode cid children (entry "items" kvs)
                (entry "title" kvs) (entry "description" kvs) /\
       field "collection_id" node = None /\
       field "catalog_id" node = Some cid /\
       (forall t, lookup "title" kvs = Some t -> field "title" node = Some t) /\
       (forall t, lookup "description" kvs = Some t -> field "description" node = Some t)) /\
    (lookup "collection_id" kvs = None ->
     lookup "catalog_id" kvs = None ->
       node = BrowsableNode children (entry "items" kvs) /\
       field "collection_id" node = None /\
       field "catalog_id" node = None).
Proof.
  intros Hd Hlt.
  destruct (parse_hierarchy_input fuel _ Hd Hlt) as (kvs' & children & Heq & Hp & _).
  injection Heq as <-. exists (node_of kvs children), children.
  split; [exact Hp|]. unfold node_of. split; [|split].
  - intros cid Hc. rewrite Hc. repeat (split; [reflexivity|]). reflexivity.
  - intros Hc cid Hcat. rewrite Hc, Hcat. repeat (split; [reflexivity|]).
    split; intros t Ht; simpl; unfold entry; rewrite Ht; reflexivity.
  - intros Hc Hcat. rewrite Hc, Hcat. repeat (split; [reflexivity|]). reflexivity.
Qed.

Lemma parse_hierarchy_classifies_witness :
  exists node, parse_hierarchy 4 spec_example = Ok node /\
               field "catalog_id" node = Some (VStr "root").
Proof.
  assert (Hd : depth spec_example < 4) by (simpl; lia).
  destruct (parse_hierarchy_classifies 4
              [("catalog_id", VStr "root");
               ("children", VList [VDict [("collection_id", VStr "c1")]]);
               ("items", VList [VList [VStr "c1"; VStr "item1"]])]
              spec_example_input_mapping Hd)
    as (node & children & Hp & _ & Hcat & _).
  exists node. split; [exact Hp|].
  destruct (Hcat eq_refl (VStr "root") eq_refl) as (_ & _ & H & _). exact H.
Defined.

(** C8. Absent items. When the input mapping has no [items] key, the node
    the parser returns holds [None] under [items], not an empty list, and
    this is so for each of the three kinds of node. *)
Theorem parse_hierarchy_items_none (fuel : nat) (kvs : list (string * value)) :
  input_mapping (VDict kvs) ->
  depth (VDict kvs) < fuel ->
  lookup "items" kvs = None ->
  exists node children,
    parse_hierarchy fuel (VDict kvs) = Ok node /\
    field "items" node = Some VNone /\
    (forall cid, lookup "collection_id" kvs = Some cid ->
       node = CollectionNode cid children VNone) /\
    (lookup "collection_id" kvs = None ->
     forall cid, lookup "catalog_id" kvs = Some cid ->
       node = CatalogNode cid children VNone (entry "title" kvs) (entry "description" kvs)) /\
    (lookup "collection_id" kvs = None ->
     lookup "catalog_id" kvs = None ->
       node = BrowsableNode children VNone).
Proof.
  intros Hd Hlt Hi.
  destruct (parse_hierarchy_input fuel _ Hd Hlt) as (kvs' & children & Heq & Hp & _).
  injection Heq as <-. exists (node_of kvs children), children.
  assert (He : entry "items" kvs = VNone) by (unfold entry; now rewrite Hi).
  split; [exact Hp|]. unfold node_of. rewrite !He.
  split; [|split; [|split]].
  - destruct (lookup "collection_id" kvs); [reflexivity|].
    destruct (lookup "catalog_id" kvs); reflexivity.
  - intros cid Hc. now rewrite Hc.
  - intros Hc cid Hcat. now rewrite Hc, Hcat.
  - intros Hc Hcat. now rewrite Hc, Hcat.
Qed.

Lemma parse_hierarchy_items_none_witness :
  exists node, parse_hierarchy 2 (VDict [("collection_id", VStr "c1")]) = Ok node /\
               field "items" node = Some VNone.
Proof.
  assert (Hd : depth (VDict [("collection_id", VStr "c1")]) < 2) by (simpl; lia).
  destruct (parse_hierarchy_items_none 2 [("collection_id", VStr "c1")]
              (input_leaf [("collection_id", VStr "c1")] eq_refl) Hd eq_refl)
    as (node & children & Hp & Hi & _).
  exists node. split; assumption.
Defined.

Lemma Forall2_nth_parse (f : value -> result value) (cs ns : list value) :
  Forall2 (fun c n => f c = Ok n) cs ns ->
  List.length ns = List.length cs /\
  forall i, i < List.length cs -> f (nth i cs VNone) = Ok (nth i ns VNone).
Proof.
  induction 1 as [|c n cs ns Hc _ [IHlen IHnth]]; simpl.
  - split; [reflexivity | intros i Hi; lia].
  - split; [now rewrite IHlen|]. intros [|i] Hi; [exact Hc | apply IHnth; lia].
Qed.

(** C9. Structural recursion. When the input mapping has a list under
    [children], the node's children are as many as the input's and the
    child at each valid index is the result of parsing the input's child at
    that index; when the input has no [children] key the node's children
    are the empty list. *)
Theorem parse_hierarchy_children (fuel : nat) (kvs : list (string * value)) :
  input_mapping (VDict kvs) ->
  depth (VDict kvs) < fuel ->
  exists node children,
    parse_hierarchy fuel (VDict kvs) = Ok node /\
    field "children" node = Some (VList children) /\
    (forall cs, lookup "children" kvs = Some (VList cs) ->
       List.length children = List.length cs /\
       forall i, i < List.length cs ->
         parse_hierarchy fuel (nth i cs VNone) = Ok (nth i children VNone)) /\
    (lookup "children" kvs = None -> children = []).
Proof.
  intros Hd Hlt.
  destruct (parse_hierarchy_input fuel _ Hd Hlt) as (kvs' & children & Heq & Hp & Hch).
  injection Heq as <-. exists (node_of kvs children), children.
  split; [exact Hp|]. split; [|split].
  - unfold node_of. destruct (lookup "collection_id" kvs); [reflexivity|].
    destruct (lookup "catalog_id" kvs); reflexivity.
  - intros cs Hcs. rewrite Hcs in Hch. destruct Hch as (cs' & Heq & Hall).
    injection Heq as <-. now apply Forall2_nth_parse.
  - intros Hnone. now rewrite Hnone in Hch.
Qed.

Lemma parse_hierarchy_children_witness :
  exists node children,
    parse_hierarchy 4 spec_example = Ok node /\
    field "children" node = Some (VList children) /\
    parse_hierarchy 4 (VDict [("collection_id", VStr "c1")]) = Ok (nth 0 children VNone).
Proof.
  assert (Hd : depth spec_example < 4) by (simpl; lia).
  destruct (parse_hierarchy_children 4
              [("catalog_id", VStr "root");
               ("children", VList [VDict [("collection_id", VStr "c1")]]);
               ("items", VList [VList [VStr "c1"; VStr "item1"]])]
              spec_example_input_mapping Hd)
    as (node & children & Hp & Hf & Hcs & _).
  exists node, children. split; [exact Hp|]. split; [exact Hf|].
  destruct (Hcs _ eq_refl) as [_ Hnth]. apply (Hnth 0). simpl. lia.
Defined.

(** C10. Termination. A value built from finitely many nested lists and
    mappings has a depth; with a recursion budget above it the parser never
    runs out of budget, and on an input mapping it returns a node: the node
    the classification rule builds from the entries of the mapping and the
    nodes returned for its children, in order (none when the mapping has no
    [children] entry). *)
Theorem parse_hierarchy_terminates (fuel : nat) (d : value) :
  depth d < fuel ->
  parse_hierarchy fuel d <> Raise RecursionError /\
  (input_mapping d ->
   exists kvs children,
     d = VDict kvs /\
     parse_hierarchy fuel d = Ok (node_of kvs children) /\
     match lookup "children" kvs with
     | Some v => exists cs, v = VList cs /\
                            Forall2 (fun c n => parse_hierarchy fuel c = Ok n) cs children
     | None => children = []
     end).
Proof.
  intros Hlt. split; [now apply parse_hierarchy_within_budget|].
  intros Hd. exact (parse_hierarchy_input fuel d Hd Hlt).
Qed.

Lemma parse_hierarchy_terminates_witness :
  parse_hierarchy 4 spec_example
  = Ok (CatalogNode (VStr "root") [CollectionNode (VStr "c1") [] VNone]
          (VList [VList [VStr "c1"; VStr "item1"]]) VNone VNone).
Proof.
  assert (Hd : depth spec_example < 4) by (simpl; lia).
  destruct (parse_hierarchy_terminates 4 spec_example Hd) as [_ H].
  destruct (H spec_example_input_mapping) as (kvs & children & Heq & Hp & Hch).
  injection Heq as <-. simpl in Hch. destruct Hch as (cs & Hcs & Hall).
  injection Hcs as <-.
  inversion Hall as [|c n cs' ns Hc Hnil]; subst. inversion Hnil; subst.
  rewrite Hp. vm_compute in Hc. injection Hc as <-. reflexivity.
Defined.

(** ** The link builders *)

Lemma browsable_child_link_collection_defect
  (kvs : list (string * value)) (base_url : string) (collection_id : value) :
  lookup "collection_id" kvs = Some collection_id ->
  browsable_child_link (VDict kvs) base_url = Raise TypeError.
Proof.
  intros H. unfold browsable_child_link. simpl. rewrite H. simpl.
  unfold or_else. destruct (truthy _); reflexivity.
Qed.

(** C1 (defect in the code). The claim promises a link for every node with
    a [collection_id] key. The code calls [urljoin] with one argument, the
    list [[base_url, "collections/..."]], where the function takes the two
    strings as two arguments (as [browsable_item_link] passes them): for
    every such node and every base URL the call raises [TypeError] and no
    link is returned. *)
Theorem browsable_child_link_collection_raises
  (kvs : list (string * value)) (base_url : string) (collection_id : value) :
  lookup "collection_id" kvs = Some collection_id ->
  browsable_child_link (VDict kvs) base_url = Raise TypeError /\
  forall link, browsable_child_link (VDict kvs) base_url <> Ok link.
Proof.
  intros H. rewrite (browsable_child_link_collection_defect _ _ _ H).
  split; [reflexivity | discriminate].
Qed.

Lemma browsable_child_link_collection_raises_witness :
  browsable_child_link (CollectionNode (VStr "c1") [] VNone) "https://example.com/"
  = Raise TypeError.
Proof.
  exact (proj1 (browsable_child_link_collection_raises
                  [("collection_id", VStr "c1"); ("children", VList []); ("items", VNone)]
                  "https://example.com/" (VStr "c1") eq_refl)).
Defined.

Lemma lstrip_suffix (c : ascii) (s : string) : exists a, s = a ++ lstrip c s.
Proof.
  induction s as [|x s [a IH]]; simpl.
  - exists EmptyString. reflexivity.
  - destruct (Ascii.eqb x c).
    + exists (String x a). simpl. now rewrite <- IH.
    + exists EmptyString. reflexivity.
Qed.

Lemma rstrip_prefix (c : ascii) (s : string) : exists b, s = rstrip c s ++ b.
Proof.
  induction s as [|x s [b IH]]; simpl.
  - exists EmptyString. reflexivity.
  - destruct (Ascii.eqb x c && is_empty (rstrip c s)).
    + exists (String x s). reflexivity.
    + exists b. simpl. now rewrite <- IH.
Qed.

Lemma strip_sub (c : ascii) (s : string) : exists a b, s = a ++ strip c s ++ b.
Proof.
  unfold strip. destruct (lstrip_suffix c s) as [a Ha].
  destruct (rstrip_prefix c (lstrip c s)) as [b Hb].
  exists a, b. now rewrite <- Hb.
Qed.

(** A catalog id appended as a sibling segment brings [collections/] into
    the address only if one of the two parts already has it. *)
Lemma sibling_without_collections (s i : string) :
  str_contains "collections" s = false ->
  str_contains "collections/" i = false ->
  str_contains "collections/" (s ++ "/" ++ i) = false.
Proof.
  intros Hs Hi. destruct (str_contains "collections/" (s ++ "/" ++ i)) eqn:E; [|reflexivity].
  exfalso. apply str_contains_spec in E. destruct E as (a & b & E).
  destruct (append_eq_append _ _ _ _ E) as [l [[Hl1 Hl2]|[Hl1 Hl2]]].
  - change ("collections/" ++ b) with ("collections" ++ "/" ++ b) in Hl2.
    destruct (append_eq_append _ _ _ _ Hl2) as [m [[Hm1 Hm2]|[Hm1 Hm2]]].
    + destruct m as [|x m].
      * rewrite append_nil_r in Hm1. subst l.
        assert (str_contains "collections" s = true); [|congruence].
        apply str_contains_spec. exists a, EmptyString. now rewrite append_nil_r.
      * simpl in Hm2. injection Hm2 as <- _.
        assert (has_char "/" (l ++ String "/" m) = has_char "/" "collections")
          by (now rewrite Hm1).
        rewrite has_char_app in H. simpl in H. rewrite orb_true_r in H. discriminate.
    + assert (str_contains "collections" s = true); [|congruence].
      apply str_contains_spec. exists a, m. now rewrite Hl1, Hm1.
  - destruct l as [|x l].
    + simpl in Hl2. discriminate.
    + simpl in Hl2. injection Hl2 as _ Hl2.
      assert (str_contains "collections/" i = true); [|congruence].
      apply str_contains_spec. exists l, b. exact Hl2.
Qed.

(** C4, as the code has it. For a node with a string under [catalog_id]
    and no [collection_id] key the child link has rel child, type
    application/json, as title the node's title when it has one that is
    true (a non-empty string) and the catalog id otherwise, and as href the
    base URL stripped of all its leading and trailing slashes, a slash, and
    the catalog id. The href is free of [collections/] when the base URL is
    free of [collections] and the catalog id is free of [collections/]. *)
Theorem browsable_child_link_catalog
  (kvs : list (string * value)) (base_url catalog_id : string) :
  lookup "collection_id" kvs = None ->
  lookup "catalog_id" kvs = Some (VStr catalog_id) ->
  browsable_child_link (VDict kvs) base_url
  = Ok (VDict [("rel", VStr "child"); ("type", VStr "application/json");
               ("title", py_or (entry "title" kvs) (VStr catalog_id));
               ("href", VStr (strip "/" base_url ++ "/" ++ catalog_id))]) /\
  (str_contains "collections" base_url = false ->
   str_contains "collections/" catalog_id = false ->
   str_contains "collections/" (strip "/" base_url ++ "/" ++ catalog_id) = false).
Proof.
  intros Hcol Hcat. split.
  - unfold browsable_child_link. simpl. rewrite Hcol. simpl. rewrite Hcat. simpl.
    unfold or_else, py_or, entry. destruct (truthy _); reflexivity.
  - intros Hb Hc. apply sibling_without_collections; [|exact Hc].
    destruct (strip_sub "/" base_url) as (a & b & Hs). rewrite Hs in Hb.
    exact (str_contains_false_sub _ _ _ _ Hb).
Qed.

Lemma browsable_child_link_catalog_witness :
  browsable_child_link (VDict [("catalog_id", VStr "c1")]) "https://example.com/"
  = Ok (VDict [("rel", VStr "child"); ("type", VStr "application/json");
               ("title", VStr "c1"); ("href", VStr "https://example.com/c1")]).
Proof.
  exact (proj1 (browsable_child_link_catalog [("catalog_id", VStr "c1")]
                  "https://example.com/" "c1" eq_refl eq_refl)).
Defined.

(** C4 as the claim words it fails, in each of its three parts: a title
    that is present but empty is replaced by the catalog id; leading slashes
    of the base URL are stripped too; and under a base URL that ends in
    [collections/] the href contains [collections/]. *)
Lemma browsable_child_link_catalog_counterexample :
  ~ (forall (kvs : list (string * value)) (base_url catalog_id title : string),
       lookup "collection_id" kvs = None ->
       lookup "catalog_id" kvs = Some (VStr catalog_id) ->
       lookup "title" kvs = Some (VStr title) ->
       exists link,
         browsable_child_link (VDict kvs) base_url = Ok link /\
         field "title" link = Some (VStr title)) /\
  ~ (forall (kvs : list (string * value)) (base_url catalog_id : string),
       lookup "collection_id" kvs = None ->
       lookup "catalog_id" kvs = Some (VStr catalog_id) ->
       exists link,
         browsable_child_link (VDict kvs) base_url = Ok link /\
         field "href" link = Some (VStr (rstrip "/" base_url ++ "/" ++ catalog_id))) /\
  ~ (forall (kvs : list (string * value)) (base_url catalog_id : string),
       lookup "collection_id" kvs = None ->
       lookup "catalog_id" kvs = Some (VStr catalog_id) ->
       exists link href,
         browsable_child_link (VDict kvs) base_url = Ok link /\
         field "href" link = Some (VStr href) /\
         str_contains "collections/" href = false).
Proof.
  split; [|split]; intros H.
  - destruct (H [("catalog_id", VStr "x"); ("title", VStr EmptyString)]
                "https://example.com/" "x" EmptyString eq_refl eq_refl eq_refl)
      as (link & Hlink & Ht).
    vm_compute in Hlink. injection Hlink as <-. discriminate Ht.
  - destruct (H [("catalog_id", VStr "x")] "/api/" "x" eq_refl eq_refl)
      as (link & Hlink & Hh).
    vm_compute in Hlink. injection Hlink as <-. discriminate Hh.
  - destruct (H [("catalog_id", VStr "x")] "https://example.com/collections/" "x"
                eq_refl eq_refl)
      as (link & href & Hlink & Hh & Hc).
    vm_compute in Hlink. injection Hlink as <-. injection Hh as <-.
    vm_compute in Hc. discriminate Hc.
Qed.

(** C5, as the code has it. For an item path whose two ids are plain path
    segments (no slash, question mark, hash, semicolon, tab, carriage return
    or line feed; not a dot segment), the collection id not empty, and a
    base URL that [urlparse] accepts, the item link has rel item, type
    application/json and an href that contains
    [collections/{collection_id}/items/{item_id}]. *)
Theorem browsable_item_link_href (collection_id item_id base_url : string) :
  plain_segment collection_id = true ->
  is_empty collection_id = false ->
  plain_segment item_id = true ->
  parses base_url = true ->
  exists href,
    browsable_item_link (ItemPath collection_id item_id) base_url
    = Ok (VDict [("rel", VStr "item"); ("type", VStr "application/json");
                 ("href", VStr href)]) /\
    str_contains ("collections/" ++ collection_id ++ "/items/" ++ item_id) href = true.
Proof.
  intros Hc Hne Hi Hb. unfold ItemPath.
  destruct (urljoin_item base_url collection_id item_id Hc Hne Hi Hb) as [x Hx].
  exists (x ++ "collections/" ++ collection_id ++ "/items/" ++ item_id). split.
  - unfold browsable_item_link. simpl getindex. unfold bind at 1 2. simpl format_value.
    unfold urljoin_call. unfold truthy.
    destruct base_url as [|a base_url].
    + simpl in Hx |- *. injection Hx as Hx. now rewrite <- Hx.
    + change (is_empty (String a base_url)) with false.
      change (is_empty ("collections/" ++ collection_id ++ "/items/" ++ item_id)) with false.
      simpl negb. cbv iota. rewrite Hx. reflexivity.
  - apply str_contains_spec. exists x, EmptyString. now rewrite append_nil_r.
Qed.

Lemma browsable_item_link_href_witness :
  exists href,
    browsable_item_link (ItemPath "c1" "item1") "https://example.com/"
    = Ok (VDict [("rel", VStr "item"); ("type", VStr "application/json");
                 ("href", VStr href)]) /\
    str_contains "collections/c1/items/item1" href = true.
Proof.
  exact (browsable_item_link_href "c1" "item1" "https://example.com/"
           eq_refl eq_refl eq_refl eq_refl).
Defined.

(** C5 as the claim words it fails: [urljoin] resolves dot segments, so for
    the item path [("..", "x")] the href is [https://example.com/items/x]. *)
Lemma browsable_item_link_href_counterexample :
  ~ (forall collection_id item_id base_url : string,
       exists href,
         browsable_item_link (ItemPath collection_id item_id) base_url
         = Ok (VDict [("rel", VStr "item"); ("type", VStr "application/json");
                      ("href", VStr href)]) /\
         str_contains ("collections/" ++ collection_id ++ "/items/" ++ item_id) href = true).
Proof.
  intros H. destruct (H ".." "x" "https://example.com/") as (href & Hlink & Hc).
  vm_compute in Hlink. injection Hlink as <-. vm_compute in Hc. discriminate Hc.
Qed.

(** ** The catalog of a node *)

Lemma urljoin_call_str (base url : string) :
  urljoin_call [VStr base; VStr url] = (href <- urljoin base url true ;; Ok (VStr href)).
Proof. destruct base, url; reflexivity. Qed.

Lemma mapM_app {A B : Type} (f : A -> result B) (l1 l2 : list A) :
  mapM f (l1 ++ l2)
  = (x <- mapM f l1 ;; y <- mapM f l2 ;; Ok (x ++ y)%list).
Proof.
  induction l1 as [|a l1 IH]; simpl.
  - destruct (mapM f l2); reflexivity.
  - destruct (f a) as [b|e]; simpl; [|reflexivity]. rewrite IH.
    destruct (mapM f l1) as [x|e]; simpl; [|reflexivity].
    destruct (mapM f l2); reflexivity.
Qed.

(** The root link and the self link are accepted when their hrefs are not
    empty. *)
Lemma validate_plain_link (r h : string) :
  is_empty r = false ->
  validate_Link (plain_link r (VStr h))
  = if is_empty h then Raise ValidationError
    else Ok (mkLink h r (Some "application/json") None).
Proof.
  intros Hr. destruct r as [|a r]; [discriminate Hr|].
  destruct h as [|c h]; reflexivity.
Qed.

(** What a successful call of [browsable_catalog] went through. *)
Lemma browsable_catalog_ok
  (ver : string) (node : value) (catalog_path base_url : string) (cat : Catalog) :
  browsable_catalog ver node catalog_path base_url = Ok cat ->
  exists kvs cv children iv items children_links item_links self_href catalog_id,
    node = VDict kvs /\
    lookup "children" kvs = Some cv /\ iter cv = Ok children /\
    mapM (fun child => browsable_child_link child base_url) children = Ok children_links /\
    lookup "items" kvs = Some iv /\ iter iv = Ok items /\
    mapM (fun item => browsable_item_link item base_url) items = Ok item_links /\
    urljoin base_url ("/catalogs/" ++ strip "/" catalog_path) true = Ok self_href /\
    lookup "catalog_id" kvs = Some catalog_id /\
    exists id description child_links_ok item_links_ok,
      constr_min_length_1 catalog_id = Ok id /\
      constr_min_length_1
        (py_or (entry "description" kvs)
               (VStr ("Generated description for " ++ format_value catalog_id)))
      = Ok description /\
      mapM validate_Link children_links = Ok child_links_ok /\
      mapM validate_Link item_links = Ok item_links_ok /\
      is_empty base_url = false /\
      is_empty self_href = false /\
      cat = mkCatalog "Catalog" id description ver
              (child_links_ok ++ item_links_ok
               ++ [mkLink base_url "root" (Some "application/json") None;
                   mkLink self_href "self" (Some "application/json") None])%list.
Proof.
  unfold browsable_catalog. intros H.
  destruct node as [|b|z|s|l|kvs]; try discriminate H.
  simpl getitem in H.
  destruct (lookup "children" kvs) as [cv|] eqn:Hcv; [|discriminate H].
  unfold bind at 1 in H.
  destruct (iter cv) as [children|e] eqn:Hch; [|discriminate H].
  unfold bind at 1 in H.
  destruct (mapM _ children) as [children_links|e] eqn:Hcl; [|discriminate H].
  unfold bind at 1 in H.
  destruct (lookup "items" kvs) as [iv|] eqn:Hiv; [|discriminate H].
  unfold bind at 1 in H.
  destruct (iter iv) as [items|e] eqn:Hit; [|discriminate H].
  unfold bind at 1 in H.
  destruct (mapM _ items) as [item_links|e] eqn:Hil; [|discriminate H].
  unfold bind at 1 in H.
  rewrite urljoin_call_str in H.
  destruct (urljoin base_url _ true) as [self_href|e] eqn:Hself; [|discriminate H].
  unfold bind at 1 2 in H.
  destruct (lookup "catalog_id" kvs) as [catalog_id|] eqn:Hid; [|discriminate H].
  unfold bind at 1 in H. simpl get in H. unfold bind at 2 in H.
  assert (Hd : or_else
                 match lookup "description" kvs with Some x => x | None => VNone end
                 (Ok (VStr ("Generated description for " ++ format_value catalog_id)))
               = Ok (py_or (entry "description" kvs)
                           (VStr ("Generated description for " ++ format_value catalog_id)))).
  { unfold or_else, py_or, entry. destruct (truthy _); reflexivity. }
  unfold bind at 2 in H. rewrite Hd in H. unfold bind at 1 in H.
  unfold Catalog_new in H.
  destruct (constr_min_length_1 catalog_id) as [vid|e] eqn:Hvid; [|discriminate H].
  unfold bind at 1 in H.
  destruct (constr_min_length_1 (py_or _ _)) as [vdesc|e] eqn:Hvdesc; [|discriminate H].
  unfold bind at 1 in H. rewrite !mapM_app in H.
  destruct (mapM validate_Link children_links) as [vcl|e] eqn:Hvcl; [|discriminate H].
  unfold bind at 2 in H.
  destruct (mapM validate_Link item_links) as [vil|e] eqn:Hvil; [|discriminate H].
  unfold bind at 3 in H.
  cbn [mapM] in H. rewrite !validate_plain_link in H by reflexivity.
  destruct (is_empty base_url) eqn:Hbase; [discriminate H|].
  destruct (is_empty self_href) eqn:Hs; [discriminate H|].
  simpl in H. injection H as <-.
  exists kvs, cv, children, iv, items, children_links, item_links, self_href, catalog_id.
  repeat (split; [reflexivity || assumption|]).
  exists vid, vdesc, vcl, vil. repeat (split; [reflexivity || assumption|]). reflexivity.
Qed.

Lemma rstrip_not_endswith (c : ascii) (s : string) :
  endswith (String c EmptyString) (rstrip c s) = false.
Proof.
  induction s as [|a s IH]; [reflexivity|]. simpl rstrip.
  destruct (Ascii.eqb a c && is_empty (rstrip c s)) eqn:E; [reflexivity|].
  rewrite endswith_unfold, IH, orb_false_r. simpl.
  destruct (Ascii.eqb a c); [|reflexivity]. simpl in E.
  destruct (rstrip c s); [discriminate E | reflexivity].
Qed.

Lemma lstrip_head (c : ascii) (s : string) :
  match lstrip c s with
  | EmptyString => True
  | String a _ => Ascii.eqb a c = false
  end.
Proof.
  induction s as [|a s IH]; simpl; [exact I|].
  destruct (Ascii.eqb a c) eqn:E; [exact IH | exact E].
Qed.

Lemma strip_not_startswith (c : ascii) (s : string) :
  startswith (String c EmptyString) (strip c s) = false.
Proof.
  unfold strip, startswith. pose proof (lstrip_head c s) as H.
  destruct (lstrip c s) as [|a t]; [reflexivity|]. simpl rstrip. rewrite H. simpl.
  destruct (ascii_dec c a) as [->|]; [|reflexivity].
  rewrite Ascii.eqb_refl in H. discriminate H.
Qed.

Lemma mapM_compose {A B C : Type} (f : A -> result B) (g : B -> result C)
  (l : list A) (m : list B) (n : list C) :
  mapM f l = Ok m -> mapM g m = Ok n ->
  Forall2 (fun a c => exists b, f a = Ok b /\ g b = Ok c) l n.
Proof.
  intros Hf Hg. apply mapM_Forall2 in Hf, Hg. revert n Hg.
  induction Hf as [|a b l m Hab _ IH]; intros n Hg; inversion Hg; subst;
    constructor; eauto.
Qed.

(** X10. The links of a catalog that was returned: one per child, one per
    item, in the order of the node, each the link [browsable_child_link] or
    [browsable_item_link] returned as the [Link] model accepted it, then the
    root link and the self link. *)
Lemma browsable_catalog_links
  (ver : string) (kvs : list (string * value)) (catalog_path base_url : string)
  (cat : Catalog) (children items : list value) :
  lookup "children" kvs = Some (VList children) ->
  lookup "items" kvs = Some (VList items) ->
  browsable_catalog ver (VDict kvs) catalog_path base_url = Ok cat ->
  exists children_links item_links root_link self_link,
    links cat = (children_links ++ item_links ++ [root_link; self_link])%list /\
    Forall2 (fun child link =>
               exists l, browsable_child_link child base_url = Ok l /\
                         validate_Link l = Ok link)
      children children_links /\
    Forall2 (fun item link =>
               exists l, browsable_item_link item base_url = Ok l /\
                         validate_Link l = Ok link)
      items item_links /\
    rel root_link = "root" /\
    rel self_link = "self" /\
    List.length (links cat) = List.length children + List.length items + 2.
Proof.
  intros Hc Hi H.
  destruct (browsable_catalog_ok _ _ _ _ _ H)
    as (kvs' & cv & cs & iv & its & cl & il & self & cid & Heq & Hcv & Hcs & Hcl
        & Hiv & Hits & Hil & _ & _ & vid & vdesc & vcl & vil & _ & _ & Hvcl & Hvil
        & _ & _ & ->).
  injection Heq as <-. rewrite Hc in Hcv. injection Hcv as <-.
  rewrite Hi in Hiv. injection Hiv as <-. simpl in Hcs, Hits.
  injection Hcs as <-. injection Hits as <-.
  pose proof (mapM_compose _ _ _ _ _ Hcl Hvcl) as Fc.
  pose proof (mapM_compose _ _ _ _ _ Hil Hvil) as Fi.
  exists vcl, vil, (mkLink base_url "root" (Some "application/json") None),
    (mkLink self "self" (Some "application/json") None).
  repeat (split; [reflexivity || assumption|]).
  simpl links. rewrite !length_app, <- (Forall2_length Fc), <- (Forall2_length Fi).
  simpl. lia.
Qed.

(** C2 (defect in the code). The claim promises [m + n + 2] links for every
    CatalogNode. For every catalog node that has a collection among its
    children no catalog is returned at all: building the child links raises
    an exception, [TypeError] from the child link of the collection (the
    defect of C1) unless an earlier child already failed. *)
Theorem browsable_catalog_collection_child_raises
  (ver : string) (kvs : list (string * value)) (children : list value)
  (child : list (string * value)) (collection_id : value)
  (catalog_path base_url : string) :
  lookup "children" kvs = Some (VList children) ->
  In (VDict child) children ->
  lookup "collection_id" child = Some collection_id ->
  exists e, browsable_catalog ver (VDict kvs) catalog_path base_url = Raise e.
Proof.
  intros Hc Hin Hid. unfold browsable_catalog. simpl getitem. rewrite Hc.
  unfold bind at 1. simpl iter. unfold bind at 1.
  destruct (mapM_raise_in (fun c => browsable_child_link c base_url) children
              (VDict child) TypeError Hin
              (browsable_child_link_collection_defect child base_url collection_id Hid))
    as [e He].
  rewrite He. exists e. reflexivity.
Qed.

Lemma browsable_catalog_collection_child_raises_witness :
  exists e,
    browsable_catalog "1.0.0"
      (CatalogNode (VStr "root") [CollectionNode (VStr "c1") [] VNone]
         (VList [VList [VStr "c1"; VStr "item1"]]) VNone VNone)
      "root" "https://example.com/" = Raise e.
Proof.
  exact (browsable_catalog_collection_child_raises "1.0.0"
           [("catalog_id", VStr "root");
            ("children", VList [CollectionNode (VStr "c1") [] VNone]);
            ("items", VList [VList [VStr "c1"; VStr "item1"]]);
            ("title", VNone); ("description", VNone)]
           [CollectionNode (VStr "c1") [] VNone]
           [("collection_id", VStr "c1"); ("children", VList []); ("items", VNone)]
           (VStr "c1") "root" "https://example.com/"
           eq_refl (or_introl eq_refl) eq_refl).
Defined.

(** The example of the specification, parsed and turned into a catalog:
    the specification expects four links, the code raises [TypeError]. *)
Example browsable_catalog_spec_example (ver : string) :
  (node <- parse_hierarchy 4 spec_example ;;
   browsable_catalog ver node "root" "https://example.com/")
  = Raise TypeError.
Proof. reflexivity. Qed.

(** C3, as the code has it. In a returned catalog the last two links are
    the root link, whose href is the base URL as given, and the self link.
    The catalog path is stripped of all its leading and trailing slashes, so
    it neither starts nor ends with one; when the stripped path is plain (no
    question mark, hash, semicolon, tab, carriage return or line feed) and
    has no dot segment, the href of the self link ends with [/catalogs/]
    followed by the stripped path. *)
Theorem browsable_catalog_root_and_self
  (ver : string) (node : value) (catalog_path base_url : string) (cat : Catalog) :
  browsable_catalog ver node catalog_path base_url = Ok cat ->
  exists other_links self_href,
    links cat
    = (other_links
       ++ [mkLink base_url "root" (Some "application/json") None;
           mkLink self_href "self" (Some "application/json") None])%list /\
    startswith "/" (strip "/" catalog_path) = false /\
    endswith "/" (strip "/" catalog_path) = false /\
    (plain_path (strip "/" catalog_path) = true ->
     no_dot_segment (strip "/" catalog_path) = true ->
     endswith ("/catalogs/" ++ strip "/" catalog_path) self_href = true).
Proof.
  intros H.
  destruct (browsable_catalog_ok _ _ _ _ _ H)
    as (kvs & cv & cs & iv & its & cl & il & self & cid & _ & _ & _ & _
        & _ & _ & _ & Hself & _ & vid & vdesc & vcl & vil & _ & _ & _ & _
        & _ & _ & ->).
  exists (vcl ++ vil)%list, self. split; [simpl; now rewrite app_assoc|].
  split; [apply strip_not_startswith|]. split; [apply rstrip_not_endswith|].
  intros Hp Hd. destruct (urljoin_catalogs _ _ _ Hp Hd Hself) as [x ->].
  apply endswith_app.
Qed.

Lemma browsable_catalog_root_and_self_witness :
  exists cat other_links self_href,
    browsable_catalog "1.0.0"
      (CatalogNode (VStr "root") [CatalogNode (VStr "c1") [] VNone VNone VNone]
         (VList [VList [VStr "c1"; VStr "item1"]]) VNone VNone)
      "/root/" "https://example.com/" = Ok cat /\
    links cat
    = (other_links
       ++ [mkLink "https://example.com/" "root" (Some "application/json") None;
           mkLink self_href "self" (Some "application/json") None])%list /\
    endswith "/catalogs/root" self_href = true.
Proof.
  destruct (browsable_catalog "1.0.0"
              (CatalogNode (VStr "root") [CatalogNode (VStr "c1") [] VNone VNone VNone]
                 (VList [VList [VStr "c1"; VStr "item1"]]) VNone VNone)
              "/root/" "https://example.com/") as [cat|e] eqn:E;
    [|vm_compute in E; discriminate E].
  destruct (browsable_catalog_root_and_self _ _ _ _ _ E) as (other & self & Hl & _ & _ & He).
  exists cat, other, self. split; [reflexivity|]. split; [exact Hl|].
  apply He; reflexivity.
Defined.

(** C3 as the claim words it fails: for the catalog path [a/../b] the self
    link is [https://example.com/catalogs/b]. *)
Lemma browsable_catalog_root_and_self_counterexample :
  ~ (forall (ver : string) (node : value) (catalog_path base_url : string) (cat : Catalog),
       browsable_catalog ver node catalog_path base_url = Ok cat ->
       exists other_links self_href,
         links cat
         = (other_links
            ++ [mkLink base_url "root" (Some "application/json") None;
                mkLink self_href "self" (Some "application/json") None])%list /\
         endswith ("/catalogs/" ++ strip "/" catalog_path) self_href = true).
Proof.
  intros H.
  destruct (H "1.0.0" (CatalogNode (VStr "root") [] (VList []) VNone VNone)
              "a/../b" "https://example.com/" _ eq_refl)
    as (other & self & Hl & He).
  vm_compute in Hl.
  destruct other as [|o1 [|o2 other]]; simpl in Hl.
  - injection Hl as <-. vm_compute in He. discriminate He.
  - discriminate Hl.
  - destruct other; discriminate Hl.
Qed.

(** C7, as the code has it. The description of a returned catalog is the
    node's description when that is a non-empty string, and the generated
    default [Generated description for {catalog_id}] when the node has no
    description, has [None] for it, or has the empty string. *)
Theorem browsable_catalog_description
  (ver : string) (kvs : list (string * value)) (catalog_path base_url : string)
  (cat : Catalog) :
  browsable_catalog ver (VDict kvs) catalog_path base_url = Ok cat ->
  exists catalog_id,
    lookup "catalog_id" kvs = Some catalog_id /\
    (forall d, lookup "description" kvs = Some (VStr d) -> d <> EmptyString ->
       description cat = d) /\
    (lookup "description" kvs = None \/
     lookup "description" kvs = Some VNone \/
     lookup "description" kvs = Some (VStr EmptyString) ->
       description cat = "Generated description for " ++ format_value catalog_id).
Proof.
  intros H.
  destruct (browsable_catalog_ok _ _ _ _ _ H)
    as (kvs' & cv & cs & iv & its & cl & il & self & cid & Heq & _ & _ & _
        & _ & _ & _ & _ & Hid & vid & vdesc & vcl & vil & _ & Hdesc & _ & _
        & _ & _ & ->).
  injection Heq as <-. exists cid. split; [exact Hid|]. simpl description.
  unfold py_or, entry in Hdesc. split.
  - intros d Hd Hne. rewrite Hd in Hdesc.
    destruct d; [congruence|]. simpl in Hdesc. now injection Hdesc as <-.
  - assert (Hgen : constr_min_length_1
                     (VStr ("Generated description for " ++ format_value cid))
                   = Ok vdesc ->
                   vdesc = "Generated description for " ++ format_value cid).
    { intros E. simpl in E. now injection E as <-. }
    intros [Hd|[Hd|Hd]]; rewrite Hd in Hdesc; exact (Hgen Hdesc).
Qed.

Lemma browsable_catalog_description_witness :
  exists cat,
    browsable_catalog "1.0.0"
      (VDict [("catalog_id", VStr "x"); ("children", VList []); ("items", VList [])])
      "x" "https://example.com/" = Ok cat /\
    description cat = "Generated description for x".
Proof.
  destruct (browsable_catalog "1.0.0"
              (VDict [("catalog_id", VStr "x"); ("children", VList []); ("items", VList [])])
              "x" "https://example.com/") as [cat|e] eqn:E;
    [|vm_compute in E; discriminate E].
  destruct (browsable_catalog_description _ _ _ _ _ E) as (cid & Hid & _ & Hdefault).
  injection Hid as <-.
  exists cat. split; [reflexivity|]. apply Hdefault. left. reflexivity.
Defined.

(** C7 as the claim words it fails: a node whose description is the empty
    string has a description, yet the catalog gets the generated one. *)
Lemma browsable_catalog_description_counterexample :
  ~ (forall (ver : string) (kvs : list (string * value)) (catalog_path base_url : string)
            (cat : Catalog) (d : string),
       browsable_catalog ver (VDict kvs) catalog_path base_url = Ok cat ->
       lookup "description" kvs = Some (VStr d) ->
       description cat = d).
Proof.
  intros H.
  assert (Hd := H "1.0.0"
                  [("catalog_id", VStr "x"); ("children", VList []); ("items", VList []);
                   ("description", VStr EmptyString)]
                  "x" "https://example.com/" _ EmptyString eq_refl eq_refl).
  vm_compute in Hd. discriminate Hd.
Qed.

(** ** Further properties of the parser *)

(** What a returned node tells about the call. *)
Lemma parse_hierarchy_ok_inv (fuel : nat) (d node : value) :
  parse_hierarchy fuel d = Ok node ->
  exists f kvs children,
    fuel = S f /\ d = VDict kvs /\ node = node_of kvs children /\
    match lookup "children" kvs with
    | Some v => exists cs, iter v = Ok cs /\ mapM (parse_hierarchy f) cs = Ok children
    | None => children = []
    end.
Proof.
  intros H. destruct fuel as [|f]; [discriminate H|].
  destruct d as [|b|z|s|l|kvs]; try discriminate H.
  - exfalso. simpl in H.
    destruct (str_contains "children" s); simpl in H; [discriminate H|].
    destruct (str_contains "collection_id" s); simpl in H; [discriminate H|].
    destruct (str_contains "catalog_id" s); simpl in H; discriminate H.
  - exfalso. simpl in H.
    destruct (existsb _ l); simpl in H; [discriminate H|].
    destruct (existsb _ l); simpl in H; [discriminate H|].
    destruct (existsb _ l); simpl in H; discriminate H.
  - rewrite parse_hierarchy_dict in H. exists f, kvs.
    destruct (lookup "children" kvs) as [v|].
    + destruct (iter v) as [cs|e]; [|discriminate H]. unfold bind at 2 in H.
      destruct (mapM (parse_hierarchy f) cs) as [ns|e] eqn:E; [|discriminate H].
      simpl in H. injection H as <-. exists ns. repeat split. eauto.
    + simpl in H. injection H as <-. exists []. repeat split.
Qed.

(** The mapping behind a node: its children, and the node it is parsed to. *)
Lemma node_of_dict (kvs : list (string * value)) (children : list value) :
  exists kvs',
    node_of kvs children = VDict kvs' /\
    lookup "children" kvs' = Some (VList children) /\
    lookup "items" kvs' = Some (entry "items" kvs) /\
    forall children', node_of kvs' children' = node_of kvs children'.
Proof.
  unfold node_of.
  destruct (lookup "collection_id" kvs) as [cid|] eqn:Hcol;
    [|destruct (lookup "catalog_id" kvs) as [cid|] eqn:Hcat];
    eexists; (split; [reflexivity|]); repeat split.
Qed.

(** X1. Only a mapping is parsed: whenever the parser returns a node, its
    argument was a mapping (a string, a list, a number, a boolean or [None]
    raises), and the recursion budget was not zero. *)
Theorem parse_hierarchy_only_mappings (fuel : nat) (d node : value) :
  parse_hierarchy fuel d = Ok node ->
  (exists kvs, d = VDict kvs) /\ fuel <> 0.
Proof.
  intros H. destruct (parse_hierarchy_ok_inv _ _ _ H) as (f & kvs & ch & -> & -> & _).
  split; [eauto | discriminate].
Qed.

Lemma parse_hierarchy_only_mappings_witness :
  (exists kvs, VDict [("collection_id", VStr "c1")] = VDict kvs) /\ 1 <> 0.
Proof.
  exact (parse_hierarchy_only_mappings 1 (VDict [("collection_id", VStr "c1")])
           (CollectionNode (VStr "c1") [] VNone) eq_refl).
Defined.

Lemma parse_hierarchy_mono_le (fuel fuel' : nat) (d node : value) :
  fuel <= fuel' ->
  parse_hierarchy fuel d = Ok node -> parse_hierarchy fuel' d = Ok node.
Proof.
  induction 1 as [|fuel' _ IH]; intros H; [exact H|].
  apply parse_hierarchy_mono. exact (IH H).
Qed.

(** X2. The recursion limit does not shape the result: a node returned
    under some recursion budget is returned under every larger one. *)
Theorem parse_hierarchy_budget_monotone (fuel fuel' : nat) (d node : value) :
  fuel <= fuel' ->
  parse_hierarchy fuel d = Ok node ->
  parse_hierarchy fuel' d = Ok node.
Proof. apply parse_hierarchy_mono_le. Qed.

Lemma parse_hierarchy_budget_monotone_witness :
  parse_hierarchy 1000 spec_example
  = Ok (CatalogNode (VStr "root") [CollectionNode (VStr "c1") [] VNone]
          (VList [VList [VStr "c1"; VStr "item1"]]) VNone VNone).
Proof.
  apply (parse_hierarchy_budget_monotone 3 1000 spec_example); [|reflexivity].
  repeat constructor.
Defined.

(** X3. All or nothing: when parsing one of the children of a mapping
    raises, parsing the mapping raises too, with the exception of one of
    its children; no partial node is returned. *)
Theorem parse_hierarchy_child_error
  (fuel : nat) (kvs : list (string * value)) (children : list value)
  (child : value) (e : exn) :
  lookup "children" kvs = Some (VList children) ->
  In child children ->
  parse_hierarchy fuel child = Raise e ->
  exists e' child',
    In child' children /\
    parse_hierarchy fuel child' = Raise e' /\
    parse_hierarchy (S fuel) (VDict kvs) = Raise e'.
Proof.
  intros Hc Hin He. rewrite parse_hierarchy_dict, Hc. simpl iter. unfold bind at 2.
  destruct (mapM_raise_in _ _ _ _ Hin He) as [e' He'].
  destruct (mapM_raise _ _ _ He') as (c' & Hin' & Hc').
  exists e', c'. rewrite He'. auto.
Qed.

Lemma parse_hierarchy_child_error_witness :
  exists e' child',
    In child' [VDict [("collection_id", VStr "c1")]; VInt 5] /\
    parse_hierarchy 3 child' = Raise e' /\
    parse_hierarchy 4
      (VDict [("catalog_id", VStr "root");
              ("children", VList [VDict [("collection_id", VStr "c1")]; VInt 5])])
    = Raise e'.
Proof.
  exact (parse_hierarchy_child_error 3
           [("catalog_id", VStr "root");
            ("children", VList [VDict [("collection_id", VStr "c1")]; VInt 5])]
           [VDict [("collection_id", VStr "c1")]; VInt 5] (VInt 5) TypeError
           eq_refl (or_intror (or_introl eq_refl)) eq_refl).
Defined.

Lemma parse_hierarchy_idem (fuel : nat) (d node : value) :
  parse_hierarchy fuel d = Ok node -> parse_hierarchy fuel node = Ok node.
Proof.
  revert d node; induction fuel as [|f IH]; intros d node H; [discriminate H|].
  destruct (parse_hierarchy_ok_inv _ _ _ H) as (f' & kvs & ch & Hf & -> & -> & Hch).
  injection Hf as <-.
  destruct (node_of_dict kvs ch) as (kvs' & Hk & Hc' & _ & Hnode).
  assert (Hself : mapM (parse_hierarchy f) ch = Ok ch).
  { destruct (lookup "children" kvs) as [v|].
    - destruct Hch as (cs & _ & Hm). apply mapM_Forall2 in Hm. apply mapM_Forall2.
      clear - Hm IH. induction Hm as [|c n cs ns Hc _ IHm]; constructor; eauto.
    - subst ch. reflexivity. }
  rewrite Hk at 1. rewrite parse_hierarchy_dict, Hc'. simpl iter. unfold bind at 2.
  rewrite Hself. unfold bind. now rewrite Hnode.
Qed.

(** X4. Parsing is idempotent: a node the parser returned is itself an
    input the parser accepts, and parsing it gives the same node back. *)
Theorem parse_hierarchy_idempotent (fuel : nat) (d node : value) :
  parse_hierarchy fuel d = Ok node ->
  parse_hierarchy fuel node = Ok node.
Proof. apply parse_hierarchy_idem. Qed.

Lemma parse_hierarchy_idempotent_witness :
  parse_hierarchy 4
    (CatalogNode (VStr "root") [CollectionNode (VStr "c1") [] VNone]
       (VList [VList [VStr "c1"; VStr "item1"]]) VNone VNone)
  = Ok (CatalogNode (VStr "root") [CollectionNode (VStr "c1") [] VNone]
          (VList [VList [VStr "c1"; VStr "item1"]]) VNone VNone).
Proof.
  exact (parse_hierarchy_idempotent 4 spec_example _ eq_refl).
Defined.

(** X5. The keys of a node are fixed by its kind, whatever else the input
    holds: [collection_id, children, items] for a collection, [catalog_id,
    children, items, title, description] for a catalog, [children, items]
    otherwise. Any other key of the input (the title of a collection, say)
    is dropped, and the keys a catalog lacks are added. *)
Theorem parse_hierarchy_keys (fuel : nat) (kvs : list (string * value)) (node : value) :
  parse_hierarchy fuel (VDict kvs) = Ok node ->
  keys node =
    match lookup "collection_id" kvs, lookup "catalog_id" kvs with
    | Some _, _ => ["collection_id"; "children"; "items"]
    | None, Some _ => ["catalog_id"; "children"; "items"; "title"; "description"]
    | None, None => ["children"; "items"]
    end.
Proof.
  intros H. destruct (parse_hierarchy_ok_inv _ _ _ H) as (f & kvs' & ch & _ & Heq & -> & _).
  injection Heq as <-. unfold node_of.
  destruct (lookup "collection_id" kvs); [reflexivity|].
  destruct (lookup "catalog_id" kvs); reflexivity.
Qed.

Lemma parse_hierarchy_keys_witness :
  keys (CollectionNode (VStr "c1") [] VNone) = ["collection_id"; "children"; "items"].
Proof.
  exact (parse_hierarchy_keys 2
           [("collection_id", VStr "c1"); ("title", VStr "A collection")]
           (CollectionNode (VStr "c1") [] VNone) eq_refl).
Defined.

(** ** Further properties of the link builders *)

Lemma remove_char_app (c : ascii) (a b : string) :
  remove_char c (a ++ b) = remove_char c a ++ remove_char c b.
Proof.
  induction a as [|x a IH]; simpl; [reflexivity|].
  destruct (Ascii.eqb x c); simpl; now rewrite IH.
Qed.

Lemma remove_unsafe_app (a b : string) :
  remove_unsafe (a ++ b) = remove_unsafe a ++ remove_unsafe b.
Proof. unfold remove_unsafe. simpl. now rewrite !remove_char_app. Qed.

(** [urlparse] only ever raises [ValueError]. *)
Lemma urlparse_raises_ValueError (url scheme : string) (af : bool) (e : exn) :
  urlparse url scheme af = Raise e -> e = ValueError.
Proof.
  unfold urlparse, urlsplit.
  destruct (match cut ":" (remove_unsafe url) with
            | Some (head, rest) =>
                if negb (is_empty head) && forallb_str (fun c => has_char c scheme_chars) head
                then (lower head, rest) else (remove_unsafe scheme, remove_unsafe url)
            | None => (remove_unsafe scheme, remove_unsafe url)
            end) as [sch u].
  destruct (startswith "//" u).
  - destruct (splitnetloc u 2) as [netloc rest].
    destruct (_ || _).
    + simpl. intros H. now injection H as <-.
    + simpl. destruct (if af then cut "#" rest else None) as [[? ?]|];
        destruct (cut "?" _) as [[? ?]|]; simpl;
        destruct (_ && _); try destruct (splitparams _); discriminate.
  - simpl. destruct (if af then cut "#" u else None) as [[? ?]|];
      destruct (cut "?" _) as [[? ?]|]; simpl;
      destruct (_ && _); try destruct (splitparams _); discriminate.
Qed.

(** A relative reference that starts with a fixed text which rules out a
    scheme and a network location is always parsed. *)
Lemma urlparse_relative_ok (q rest bscheme : string) :
  remove_unsafe q = q ->
  has_char ":" q = false ->
  forallb_str (fun c => has_char c scheme_chars) q = false ->
  (forall r, startswith "//" (q ++ r) = false) ->
  exists r, urlparse (q ++ rest) bscheme true = Ok r.
Proof.
  intros Hq Hc Hs H2. unfold urlparse, urlsplit.
  rewrite remove_unsafe_app, Hq.
  assert (Hscheme :
    match cut ":" (q ++ remove_unsafe rest) with
    | Some (head, rest') =>
        if negb (is_empty head) && forallb_str (fun c => has_char c scheme_chars) head
        then (lower head, rest') else (remove_unsafe bscheme, q ++ remove_unsafe rest)
    | None => (remove_unsafe bscheme, q ++ remove_unsafe rest)
    end = (remove_unsafe bscheme, q ++ remove_unsafe rest)).
  { rewrite (cut_app _ _ _ Hc). destruct (cut ":" (remove_unsafe rest)) as [[l r]|];
      [|reflexivity].
    now rewrite forallb_str_app, Hs, andb_false_r. }
  rewrite Hscheme, H2. simpl bind.
  destruct (cut "#" _) as [[? ?]|]; destruct (cut "?" _) as [[? ?]|]; simpl;
    destruct (_ && _); try destruct (splitparams _); eauto.
Qed.

(** Joining such a reference to a base URL that [urlparse] accepts returns
    a URL. *)
Lemma urljoin_relative_ok (base q rest : string) :
  parses base = true ->
  remove_unsafe q = q ->
  has_char ":" q = false ->
  forallb_str (fun c => has_char c scheme_chars) q = false ->
  (forall r, startswith "//" (q ++ r) = false) ->
  exists r, urljoin base (q ++ rest) true = Ok r.
Proof.
  intros Hb Hq Hc Hs H2. unfold urljoin.
  destruct (is_empty base); [eauto|]. destruct (is_empty (q ++ rest)); [eauto|].
  unfold parses in Hb.
  destruct (urlparse base EmptyString true)
    as [[[[[[bscheme bnetloc] bpath] bparams] bquery] bfragment]|e]; [|discriminate Hb].
  unfold bind at 1.
  destruct (urlparse_relative_ok q rest bscheme Hq Hc Hs H2)
    as [[[[[[scheme netloc] path] params] query] fragment] ->].
  unfold bind.
  repeat match goal with
         | |- context [if ?b then _ else _] => destruct b
         end; eauto.
Qed.

Lemma urljoin_rejected_base (base url : string) :
  parses base = false ->
  is_empty url = false ->
  urljoin base url true = Raise ValueError.
Proof.
  intros Hb Hu. unfold urljoin. destruct base as [|a base]; [discriminate Hb|].
  simpl is_empty. rewrite Hu. cbv iota. unfold parses in Hb.
  destruct (urlparse (String a base) EmptyString true) as [r|e] eqn:E; [discriminate Hb|].
  now rewrite (urlparse_raises_ValueError _ _ _ _ E).
Qed.

Lemma browsable_item_link_ok (a b : value) (rest : list value) (base_url : string) :
  parses base_url = true ->
  exists href,
    browsable_item_link (VList (a :: b :: rest)) base_url
    = Ok (plain_link Relations_item (VStr href)).
Proof.
  intros Hb. unfold browsable_item_link. simpl getindex. unfold bind at 1 2.
  rewrite urljoin_call_str.
  destruct (urljoin_relative_ok base_url "collections/"
              (format_value a ++ "/items/" ++ format_value b) Hb eq_refl eq_refl eq_refl
              (fun r => eq_refl)) as [href Hh].
  rewrite Hh. simpl. eauto.
Qed.

(** X6. The item link depends on the base URL only for being returned: for
    every item path with at least two elements, whatever they are, a link
    with rel item and type application/json is returned when [urlparse]
    accepts the base URL, and [ValueError] is raised when it does not. *)
Theorem browsable_item_link_returns
  (a b : value) (rest : list value) (base_url : string) :
  if parses base_url
  then exists href,
         browsable_item_link (VList (a :: b :: rest)) base_url
         = Ok (VDict [("rel", VStr "item"); ("type", VStr "application/json");
                      ("href", VStr href)])
  else browsable_item_link (VList (a :: b :: rest)) base_url = Raise ValueError.
Proof.
  destruct (parses base_url) eqn:Hb.
  - exact (browsable_item_link_ok a b rest base_url Hb).
  - unfold browsable_item_link. simpl getindex. unfold bind at 1 2.
    rewrite urljoin_call_str, urljoin_rejected_base; [reflexivity | exact Hb | reflexivity].
Qed.

(** X7. An item path with fewer than two elements is not linked: the
    second index is out of range and [IndexError] is raised, whatever the
    base URL. *)
Theorem browsable_item_link_short_path (l : list value) (base_url : string) :
  List.length l < 2 ->
  browsable_item_link (VList l) base_url = Raise IndexError.
Proof.
  intros H. destruct l as [|a [|b l]]; [reflexivity | reflexivity | simpl in H; lia].
Qed.

Lemma browsable_item_link_short_path_witness :
  browsable_item_link (VList [VStr "c1"]) "https://example.com/" = Raise IndexError.
Proof.
  apply (browsable_item_link_short_path [VStr "c1"] "https://example.com/").
  simpl. lia.
Defined.

(** X8. A catalog id that is not a string is not linked: for a mapping
    without [collection_id] whose [catalog_id] is anything but a string
    ([None], a number, a list), joining the href raises [TypeError]. *)
Theorem browsable_child_link_catalog_id_not_str
  (kvs : list (string * value)) (base_url : string) (catalog_id : value) :
  lookup "collection_id" kvs = None ->
  lookup "catalog_id" kvs = Some catalog_id ->
  (forall s, catalog_id <> VStr s) ->
  browsable_child_link (VDict kvs) base_url = Raise TypeError.
Proof.
  intros Hcol Hcat Hs. unfold browsable_child_link. simpl. rewrite Hcol. simpl.
  rewrite Hcat. simpl. unfold or_else.
  destruct (truthy _); simpl;
    (destruct catalog_id as [|b|z|s|l|d]; [| | |exfalso; exact (Hs s eq_refl)| |]);
    reflexivity.
Qed.

Lemma browsable_child_link_catalog_id_not_str_witness :
  browsable_child_link (VDict [("catalog_id", VNone)]) "https://example.com/"
  = Raise TypeError.
Proof.
  apply (browsable_child_link_catalog_id_not_str [("catalog_id", VNone)]
           "https://example.com/" VNone eq_refl eq_refl).
  intros s. discriminate.
Defined.

Lemma rstrip_app_sep (c : ascii) (s : string) :
  rstrip c (s ++ String c EmptyString) = rstrip c s.
Proof.
  induction s as [|a s IH]; simpl.
  - now rewrite Ascii.eqb_refl.
  - now rewrite IH.
Qed.

Lemma strip_cons_sep (c : ascii) (s : string) : strip c (String c s) = strip c s.
Proof. unfold strip. simpl. now rewrite Ascii.eqb_refl. Qed.

Lemma strip_app_sep (c : ascii) (s : string) :
  strip c (s ++ String c EmptyString) = strip c s.
Proof.
  induction s as [|a s IH].
  - unfold strip. simpl. now rewrite Ascii.eqb_refl.
  - simpl String.append. destruct (Ascii.eqb a c) eqn:E.
    + apply Ascii.eqb_eq in E. subst a. now rewrite !strip_cons_sep.
    + unfold strip. simpl lstrip. rewrite E.
      exact (rstrip_app_sep c (String a s)).
Qed.

(** X9. The child link of a node without [collection_id] does not see a
    trailing slash of the base URL: [base_url] and [base_url] followed by a
    slash give the same result (unlike [urljoin], which the item link
    uses). *)
Theorem browsable_child_link_trailing_slash (node : value) (base_url : string) :
  contains "collection_id" node = Ok false ->
  browsable_child_link node (base_url ++ "/") = browsable_child_link node base_url.
Proof.
  intros Hcol. unfold browsable_child_link. rewrite Hcol, strip_app_sep. reflexivity.
Qed.

Lemma browsable_child_link_trailing_slash_witness :
  browsable_child_link (VDict [("catalog_id", VStr "c1")]) "https://example.com/api/"
  = Ok (VDict [("rel", VStr "child"); ("type", VStr "application/json");
               ("title", VStr "c1"); ("href", VStr "https://example.com/api/c1")]).
Proof.
  exact (eq_trans
           (browsable_child_link_trailing_slash (VDict [("catalog_id", VStr "c1")])
              "https://example.com/api" eq_refl)
           eq_refl).
Defined.

(** ** Further properties of the catalog *)

Lemma browsable_catalog_links_witness :
  exists children_links item_links root_link self_link,
    [mkLink "https://example.com/c1" "child" (Some "application/json") (Some "c1");
     mkLink "https://example.com/collections/c1/items/item1" "item"
       (Some "application/json") None;
     mkLink "https://example.com/" "root" (Some "application/json") None;
     mkLink "https://example.com/catalogs/root" "self" (Some "application/json") None]
    = (children_links ++ item_links ++ [root_link; self_link])%list /\
    List.length children_links = 1 /\ List.length item_links = 1.
Proof.
  destruct (browsable_catalog_links "1.0.0"
              [("catalog_id", VStr "root");
               ("children", VList [VDict [("catalog_id", VStr "c1")]]);
               ("items", VList [VList [VStr "c1"; VStr "item1"]])]
              "root" "https://example.com/" _
              [VDict [("catalog_id", VStr "c1")]] [VList [VStr "c1"; VStr "item1"]]
              eq_refl eq_refl eq_refl)
    as (cl & il & r & s & Hl & Hc & Hi & _).
  exists cl, il, r, s. split; [exact Hl|].
  split; [exact (eq_sym (Forall2_length Hc)) | exact (eq_sym (Forall2_length Hi))].
Defined.

Lemma is_empty_app (a b : string) : is_empty (a ++ b) = is_empty a && is_empty b.
Proof. destruct a; reflexivity. Qed.

Lemma cut_some (c : ascii) (s : string) :
  has_char c s = true -> exists l r, cut c s = Some (l, r).
Proof.
  induction s as [|a s IH]; simpl; [discriminate|].
  destruct (Ascii.eqb a c); simpl; [eauto|].
  intros H. destruct (IH H) as (l & r & ->). eauto.
Qed.

Lemma splitparams_nonempty (q s : string) :
  is_empty q = false -> has_char ";" q = false -> has_char ";" (q ++ s) = true ->
  is_empty (fst (splitparams (q ++ s))) = false.
Proof.
  intros Hq Hc Hs. unfold splitparams.
  assert (Hne : is_empty (q ++ s) = false) by (rewrite is_empty_app, Hq; reflexivity).
  destruct (rcut "/" (q ++ s)) as [[dir last_seg]|].
  - destruct (cut ";" last_seg) as [[seg params]|]; simpl; [|exact Hne].
    apply is_empty_app_r. reflexivity.
  - rewrite (cut_app _ _ _ Hc). rewrite has_char_app, Hc in Hs. simpl in Hs.
    destruct (cut_some _ _ Hs) as (l & r & ->). simpl. rewrite is_empty_app, Hq. reflexivity.
Qed.

Lemma urlparse_relative_shape (q rest bscheme : string) :
  remove_unsafe q = q ->
  has_char ":" q = false ->
  forallb_str (fun c => has_char c scheme_chars) q = false ->
  (forall r, startswith "//" (q ++ r) = false) ->
  free_of "#?;" q = true ->
  exists scheme path params query fragment,
    urlparse (q ++ rest) bscheme true
    = Ok (scheme, EmptyString, path, params, query, fragment) /\
    is_empty path = false.
Proof.
  intros Hq Hc Hs H2 Hf. unfold urlparse, urlsplit.
  rewrite remove_unsafe_app, Hq.
  assert (Hscheme :
    match cut ":" (q ++ remove_unsafe rest) with
    | Some (head, rest') =>
        if negb (is_empty head) && forallb_str (fun c => has_char c scheme_chars) head
        then (lower head, rest') else (remove_unsafe bscheme, q ++ remove_unsafe rest)
    | None => (remove_unsafe bscheme, q ++ remove_unsafe rest)
    end = (remove_unsafe bscheme, q ++ remove_unsafe rest)).
  { rewrite (cut_app _ _ _ Hc). destruct (cut ":" (remove_unsafe rest)) as [[l r]|];
      [|reflexivity].
    now rewrite forallb_str_app, Hs, andb_false_r. }
  rewrite Hscheme, H2. simpl bind.
  assert (Hne : is_empty q = false) by (destruct q; [discriminate Hs | reflexivity]).
  assert (Hcut : forall c s, has_char c q = false ->
            exists x y, match cut c (q ++ s) with
                        | Some (l, r) => (l, r)
                        | None => (q ++ s, EmptyString)
                        end = (q ++ x, y)).
  { intros c s H. rewrite (cut_app _ _ _ H).
    destruct (cut c s) as [[l r]|]; eauto. }
  destruct (Hcut "#"%char (remove_unsafe rest) (free_of_has_char _ _ "#"%char Hf eq_refl))
    as (x & fragment & ->).
  destruct (Hcut "?"%char x (free_of_has_char _ _ "?"%char Hf eq_refl)) as (y & query & ->).
  unfold bind. cbv beta iota.
  match goal with
  | |- context [if ?b then splitparams _ else _] => destruct b eqn:G
  end.
  - apply andb_true_iff in G. destruct G as [_ G].
    pose proof (splitparams_nonempty q y Hne (free_of_has_char _ _ ";"%char Hf eq_refl) G) as Hp.
    destruct (splitparams (q ++ y)) as [path params]. simpl in Hp. eauto 10.
  - exists (remove_unsafe bscheme), (q ++ y), EmptyString, query, fragment.
    split; [reflexivity|]. rewrite is_empty_app, Hne. reflexivity.
Qed.

Lemma urlunparse_nonempty (scheme netloc path params query fragment : string) :
  is_empty path = false ->
  is_empty (urlunparse (scheme, netloc, path, params, query, fragment)) = false.
Proof.
  intros Hp. unfold urlunparse, urlunsplit.
  repeat match goal with
         | |- context [if ?b then _ else _] => destruct b
         end;
    rewrite ?is_empty_app; simpl; rewrite ?is_empty_app, ?Hp; simpl;
    rewrite ?andb_false_r; try reflexivity.
Qed.

(** Joining such a reference to a base URL that [urlparse] accepts returns
    a URL, which is not empty. *)
Lemma urljoin_relative_nonempty (base q rest : string) :
  parses base = true ->
  remove_unsafe q = q ->
  has_char ":" q = false ->
  forallb_str (fun c => has_char c scheme_chars) q = false ->
  (forall r, startswith "//" (q ++ r) = false) ->
  free_of "#?;" q = true ->
  exists r, urljoin base (q ++ rest) true = Ok r /\ is_empty r = false.
Proof.
  intros Hb Hq Hc Hs H2 Hf.
  assert (Hne : is_empty (q ++ rest) = false).
  { rewrite is_empty_app. destruct q; [discriminate Hs | reflexivity]. }
  unfold urljoin. destruct (is_empty base) eqn:Hbase; [eauto|]. rewrite Hne.
  unfold parses in Hb.
  destruct (urlparse base EmptyString true)
    as [[[[[[bscheme bnetloc] bpath] bparams] bquery] bfragment]|e]; [|discriminate Hb].
  unfold bind at 1.
  destruct (urlparse_relative_shape q rest bscheme Hq Hc Hs H2 Hf)
    as (scheme & path & params & query & fragment & -> & Hp).
  unfold bind. cbv beta iota.
  destruct (negb (String.eqb scheme bscheme) || negb (str_in scheme uses_relative));
    [eauto|].
  change (is_empty EmptyString) with true. cbv [negb]. rewrite andb_false_r, Hp.
  cbv [andb]. cbv beta iota.
  eexists. split; [reflexivity|]. apply urlunparse_nonempty.
  destruct (is_empty (join "/" _)) eqn:E; [reflexivity | exact E].
Qed.

Lemma validate_titled_link (r t h : string) :
  is_empty r = false -> is_empty h = false ->
  validate_Link (titled_link r (VStr t) (VStr h))
  = Ok (mkLink h r (Some "application/json") (Some t)).
Proof.
  intros Hr Hh. destruct r as [|a r]; [discriminate Hr|].
  destruct h as [|c h]; [discriminate Hh | reflexivity].
Qed.

(** The link of a catalog child is one the [Link] model accepts. *)
Lemma browsable_child_link_catalog_valid (child : value) (base_url : string) :
  catalog_child child = true ->
  exists l link,
    browsable_child_link child base_url = Ok l /\ validate_Link l = Ok link.
Proof.
  destruct child as [|b|z|s|l|kvs]; try discriminate. simpl.
  destruct (lookup "collection_id" kvs) eqn:Hcol; [discriminate|].
  destruct (lookup "catalog_id" kvs) as [[|b|z|s|l|d]|] eqn:Hcat; try discriminate.
  intros Ht. unfold browsable_child_link. simpl. rewrite Hcol. simpl. rewrite Hcat. simpl.
  unfold entry in Ht. unfold or_else.
  destruct (lookup "title" kvs) as [[|b|z|[|c t]|l|d]|]; try discriminate Ht; simpl;
    (eexists; eexists; split; [reflexivity|]; apply validate_titled_link;
     [reflexivity | apply is_empty_app_r; reflexivity]).
Qed.

(** So is the link of an item. *)
Lemma browsable_item_link_valid (a b : value) (rest : list value) (base_url : string) :
  parses base_url = true ->
  exists l link,
    browsable_item_link (VList (a :: b :: rest)) base_url = Ok l /\
    validate_Link l = Ok link.
Proof.
  intros Hb. unfold browsable_item_link. simpl getindex. unfold bind at 1 2.
  rewrite urljoin_call_str.
  destruct (urljoin_relative_nonempty base_url "collections/"
              (format_value a ++ "/items/" ++ format_value b) Hb eq_refl eq_refl eq_refl
              (fun r => eq_refl) eq_refl) as (href & Hh & Hne).
  rewrite Hh. simpl. eexists; eexists. split; [reflexivity|].
  rewrite validate_plain_link, Hne; reflexivity.
Qed.

Lemma mapM_total2 {A B C : Type} (f : A -> result B) (g : B -> result C) (l : list A) :
  Forall (fun x => exists y z, f x = Ok y /\ g y = Ok z) l ->
  exists ys zs,
    mapM f l = Ok ys /\ mapM g ys = Ok zs /\ List.length zs = List.length l.
Proof.
  induction 1 as [|x l (y & z & Hy & Hz) _ (ys & zs & Hys & Hzs & Hlen)]; simpl.
  - exists [], []. auto.
  - exists (y :: ys), (z :: zs). rewrite Hy, Hys. simpl. rewrite Hz, Hzs. simpl.
    rewrite Hlen. auto.
Qed.

Lemma or_else_ok (a b : value) : or_else a (Ok b) = Ok (py_or a b).
Proof. unfold or_else, py_or. destruct (truthy a); reflexivity. Qed.

Lemma has_two_cons (item : value) :
  has_two item = true -> exists a b rest, item = VList (a :: b :: rest).
Proof.
  destruct item as [|b|z|s|l|kvs]; try discriminate.
  destruct l as [|a [|b l]]; try discriminate. eauto.
Qed.

(** The description of an optional string, or the generated one, is a
    non-empty string. *)
Lemma description_valid (d : value) (generated : string) :
  optional_string d = true ->
  is_empty generated = false ->
  exists s, constr_min_length_1 (py_or d (VStr generated)) = Ok s.
Proof.
  intros Hd Hg. destruct d as [|b|z|[|c s]|l|kvs]; try discriminate Hd;
    unfold py_or; simpl truthy; cbv iota; try (eexists; reflexivity);
    destruct generated; try discriminate Hg; eexists; reflexivity.
Qed.

Lemma browsable_catalog_returns_aux
  (ver : string) (kvs : list (string * value)) (children items : list value)
  (catalog_id catalog_path base_url : string) :
  lookup "children" kvs = Some (VList children) ->
  forallb catalog_child children = true ->
  lookup "items" kvs = Some (VList items) ->
  forallb has_two items = true ->
  lookup "catalog_id" kvs = Some (VStr catalog_id) ->
  is_empty catalog_id = false ->
  optional_string (entry "description" kvs) = true ->
  parses base_url = true ->
  is_empty base_url = false ->
  exists cat,
    browsable_catalog ver (VDict kvs) catalog_path base_url = Ok cat /\
    id cat = catalog_id /\
    List.length (links cat) = List.length children + List.length items + 2.
Proof.
  intros Hc Hcs Hi His Hid Hidne Hdesc Hb Hbne.
  destruct (mapM_total2 (fun c => browsable_child_link c base_url) validate_Link children)
    as (cl & vcl & Hcl & Hvcl & Hlc).
  { rewrite forallb_forall in Hcs. apply Forall_forall.
    intros c Hin. apply browsable_child_link_catalog_valid. auto. }
  destruct (mapM_total2 (fun i => browsable_item_link i base_url) validate_Link items)
    as (il & vil & Hil & Hvil & Hli).
  { rewrite forallb_forall in His. apply Forall_forall.
    intros i Hin. destruct (has_two_cons i (His i Hin)) as (a & b & rest & ->).
    apply browsable_item_link_valid. exact Hb. }
  destruct (urljoin_relative_nonempty base_url "/catalogs/" (strip "/" catalog_path)
              Hb eq_refl eq_refl eq_refl (fun r => eq_refl) eq_refl)
    as (self & Hself & Hsne).
  destruct (description_valid (entry "description" kvs)
              ("Generated description for " ++ catalog_id) Hdesc eq_refl) as [desc Hd].
  exists (mkCatalog "Catalog" catalog_id desc ver
            (vcl ++ vil ++ [mkLink base_url "root" (Some "application/json") None;
                            mkLink self "self" (Some "application/json") None])%list).
  split; [|split; [reflexivity|]].
  - unfold browsable_catalog, bind. simpl getitem. rewrite Hc. cbv beta iota.
    simpl iter. cbv beta iota. rewrite Hcl. cbv beta iota.
    rewrite Hi. cbv beta iota. simpl iter. cbv beta iota. rewrite Hil. cbv beta iota.
    rewrite urljoin_call_str. unfold bind. rewrite Hself. cbv beta iota.
    rewrite Hid. cbv beta iota. simpl get. cbv beta iota.
    change (match lookup "description" kvs with Some x => x | None => VNone end)
      with (entry "description" kvs).
    rewrite or_else_ok. unfold Catalog_new.
    change (format_value (VStr catalog_id)) with catalog_id. rewrite Hd.
    assert (Hvid : constr_min_length_1 (VStr catalog_id) = Ok catalog_id).
    { destruct catalog_id; [discriminate Hidne | reflexivity]. }
    rewrite Hvid. unfold bind. rewrite !mapM_app, Hvcl. unfold bind. rewrite Hvil.
    cbn [mapM]. rewrite !validate_plain_link by reflexivity. rewrite Hbne, Hsne.
    reflexivity.
  - simpl links. rewrite !length_app, Hlc, Hli. simpl. lia.
Qed.

(** X11. A catalog is returned for every node whose [catalog_id] is a
    non-empty string, whose description, if any, is a string or [None],
    whose children are all catalogs with a string id and a title that, if
    any, is a string or [None] (mappings without [collection_id]), whose
    items all have at least two elements, and every non-empty base URL that
    [urlparse] accepts, whatever the catalog path: every field and every
    link passes the validation of the [Catalog] model. Its id is the
    [catalog_id], and it has one link per child, one per item and two
    more. *)
Theorem browsable_catalog_returns
  (ver : string) (kvs : list (string * value)) (children items : list value)
  (catalog_id catalog_path base_url : string) :
  lookup "children" kvs = Some (VList children) ->
  forallb catalog_child children = true ->
  lookup "items" kvs = Some (VList items) ->
  forallb has_two items = true ->
  lookup "catalog_id" kvs = Some (VStr catalog_id) ->
  is_empty catalog_id = false ->
  optional_string (entry "description" kvs) = true ->
  parses base_url = true ->
  is_empty base_url = false ->
  exists cat,
    browsable_catalog ver (VDict kvs) catalog_path base_url = Ok cat /\
    id cat = catalog_id /\
    List.length (links cat) = List.length children + List.length items + 2.
Proof. apply browsable_catalog_returns_aux. Qed.

Lemma browsable_catalog_returns_witness :
  exists cat,
    browsable_catalog "1.0.0"
      (VDict [("catalog_id", VStr "root");
              ("children", VList [VDict [("catalog_id", VStr "c1")]]);
              ("items", VList [VList [VStr "c1"; VStr "item1"]])])
      "root" "https://example.com/" = Ok cat /\
    id cat = "root" /\
    List.length (links cat) = 1 + 1 + 2.
Proof.
  exact (browsable_catalog_returns "1.0.0"
           [("catalog_id", VStr "root");
            ("children", VList [VDict [("catalog_id", VStr "c1")]]);
            ("items", VList [VList [VStr "c1"; VStr "item1"]])]
           [VDict [("catalog_id", VStr "c1")]] [VList [VStr "c1"; VStr "item1"]]
           "root" "root" "https://example.com/"
           eq_refl eq_refl eq_refl eq_refl eq_refl eq_refl eq_refl eq_refl eq_refl).
Defined.

(** No catalog is returned for an empty base URL: the root link would have
    an empty href, which the [Link] model refuses. *)
Example browsable_catalog_empty_base :
  browsable_catalog "1.0.0"
    (VDict [("catalog_id", VStr "x"); ("children", VList []); ("items", VList [])])
    "x" EmptyString
  = Raise ValidationError.
Proof. reflexivity. Qed.






Lemma Forall2_In_l {A B : Type} (R : A -> B -> Prop) (l : list A) (l' : list B) (x : A) :
  Forall2 R l l' -> In x l -> exists y, R x y.
Proof.
  induction 1 as [|a b l l' Hab _ IH]; intros Hin; [contradiction|].
  destruct Hin as [<-|Hin]; eauto.
Qed.

(** X13. Children without id are not skipped: for a catalog node that has
    among its children a mapping with neither [collection_id] nor
    [catalog_id], no catalog is returned. The child link of such a child is
    [None], which the [Catalog] model refuses as a link ([ValidationError],
    unless something else raised before). *)
Theorem browsable_catalog_plain_child_raises
  (ver : string) (kvs : list (string * value)) (children : list value)
  (child : list (string * value)) (catalog_path base_url : string) :
  lookup "children" kvs = Some (VList children) ->
  In (VDict child) children ->
  lookup "collection_id" child = None ->
  lookup "catalog_id" child = None ->
  exists e, browsable_catalog ver (VDict kvs) catalog_path base_url = Raise e.
Proof.
  intros Hc Hin Hcol Hcat.
  destruct (browsable_catalog ver (VDict kvs) catalog_path base_url) as [cat|e] eqn:E;
    [exfalso | eauto].
  destruct (browsable_catalog_ok _ _ _ _ _ E)
    as (kvs' & cv & cs & iv & its & cl & il & self & cid & Heq & Hcv & Hcs & Hcl
        & _ & _ & _ & _ & _ & vid & vdesc & vcl & vil & _ & _ & Hvcl & _).
  injection Heq as <-. rewrite Hc in Hcv. injection Hcv as <-.
  simpl in Hcs. injection Hcs as <-.
  destruct (Forall2_In_l _ _ _ _ (mapM_compose _ _ _ _ _ Hcl Hvcl) Hin)
    as (link & l & Hl & Hv).
  unfold browsable_child_link in Hl. simpl in Hl. rewrite Hcol in Hl. simpl in Hl.
  rewrite Hcat in Hl. simpl in Hl. injection Hl as <-. discriminate Hv.
Qed.

Lemma browsable_catalog_plain_child_raises_witness :
  exists e,
    browsable_catalog "1.0.0"
      (VDict [("catalog_id", VStr "x");
              ("children", VList [VDict [("children", VList [])]]);
              ("items", VList [])])
      "x" "https://example.com/" = Raise e.
Proof.
  exact (browsable_catalog_plain_child_raises "1.0.0"
           [("catalog_id", VStr "x");
            ("children", VList [VDict [("children", VList [])]]);
            ("items", VList [])]
           [VDict [("children", VList [])]] [("children", VList [])]
           "x" "https://example.com/"
           eq_refl (or_introl eq_refl) eq_refl eq_refl).
Defined.

(** With nothing else wrong the exception is [ValidationError]. *)
Example browsable_catalog_plain_child_example :
  browsable_catalog "1.0.0"
    (VDict [("catalog_id", VStr "x");
            ("children", VList [VDict [("children", VList [])]]);
            ("items", VList [])])
    "x" "https://example.com/"
  = Raise ValidationError.
Proof. reflexivity. Qed.

(** X14. Slashes around the catalog path do not matter: a leading slash
    and a trailing slash added to the catalog path leave the result of
    [browsable_catalog] unchanged. *)
Theorem browsable_catalog_path_slashes
  (ver : string) (node : value) (catalog_path base_url : string) :
  browsable_catalog ver node ("/" ++ catalog_path ++ "/") base_url
  = browsable_catalog ver node catalog_path base_url.
Proof.
  unfold browsable_catalog.
  change ("/" ++ catalog_path ++ "/") with (String "/" (catalog_path ++ "/")).
  now rewrite strip_cons_sep, strip_app_sep.
Qed.

(** ** The parser and the catalog together *)

(** X15. Items are required downstream: a node parsed from a mapping
    without [items] key is never turned into a catalog. Its [items] is
    [None], which [browsable_catalog] cannot iterate: the call raises,
    whatever the catalog path and the base URL. *)
Theorem browsable_catalog_of_parsed_without_items
  (fuel : nat) (kvs : list (string * value)) (node : value)
  (ver catalog_path base_url : string) :
  parse_hierarchy fuel (VDict kvs) = Ok node ->
  lookup "items" kvs = None ->
  exists e, browsable_catalog ver node catalog_path base_url = Raise e.
Proof.
  intros Hp Hi.
  destruct (parse_hierarchy_ok_inv _ _ _ Hp) as (f & kvs0 & ch & _ & Heq & -> & _).
  injection Heq as <-.
  destruct (browsable_catalog ver (node_of kvs ch) catalog_path base_url) as [cat|e] eqn:E;
    [exfalso | eauto].
  destruct (browsable_catalog_ok _ _ _ _ _ E)
    as (kvs' & cv & cs & iv & its & cl & il & self & cid & Hn & _ & _ & _
        & Hiv & Hits & _).
  destruct (node_of_dict kvs ch) as (kvs'' & Hk & _ & Hitems & _).
  rewrite Hk in Hn. injection Hn as <-. rewrite Hitems in Hiv.
  unfold entry in Hiv. rewrite Hi in Hiv. injection Hiv as <-. discriminate Hits.
Qed.

Lemma browsable_catalog_of_parsed_without_items_witness :
  exists e,
    browsable_catalog "1.0.0" (CatalogNode (VStr "x") [] VNone VNone VNone)
      "x" "https://example.com/" = Raise e.
Proof.
  exact (browsable_catalog_of_parsed_without_items 2 [("catalog_id", VStr "x")]
           (CatalogNode (VStr "x") [] VNone VNone VNone)
           "1.0.0" "x" "https://example.com/" eq_refl eq_refl).
Defined.

Lemma parse_catalog_child (fuel : nat) (c n : value) :
  parse_hierarchy fuel c = Ok n -> catalog_child c = true -> catalog_child n = true.
Proof.
  intros Hp Hc.
  destruct (parse_hierarchy_ok_inv _ _ _ Hp) as (f & kvs & ch & _ & -> & -> & _).
  simpl in Hc. unfold node_of.
  destruct (lookup "collection_id" kvs); [discriminate Hc|].
  destruct (lookup "catalog_id" kvs) as [[|b|z|s|l|d]|]; try discriminate Hc.
  exact Hc.
Qed.

(** X16. From input to catalog. For an input mapping with a non-empty
    string as [catalog_id] and no [collection_id], whose description, if
    any, is a string or [None], whose children are catalogs with a string
    id and a title that, if any, is a string or [None], and whose items all
    have at least two elements, parsing (with a recursion budget above the
    depth of the input) and then [browsable_catalog] return a catalog, for
    every catalog path and every non-empty base URL that [urlparse]
    accepts, with the id of the input, one link per child of the input, one
    per item, and the root and self links. *)
Theorem parse_then_browsable_catalog
  (fuel : nat) (ver : string) (kvs : list (string * value)) (children items : list value)
  (catalog_id catalog_path base_url : string) :
  input_mapping (VDict kvs) ->
  depth (VDict kvs) < fuel ->
  lookup "collection_id" kvs = None ->
  lookup "catalog_id" kvs = Some (VStr catalog_id) ->
  is_empty catalog_id = false ->
  optional_string (entry "description" kvs) = true ->
  lookup "children" kvs = Some (VList children) ->
  forallb catalog_child children = true ->
  lookup "items" kvs = Some (VList items) ->
  forallb has_two items = true ->
  parses base_url = true ->
  is_empty base_url = false ->
  exists node cat,
    parse_hierarchy fuel (VDict kvs) = Ok node /\
    browsable_catalog ver node catalog_path base_url = Ok cat /\
    id cat = catalog_id /\
    List.length (links cat) = List.length children + List.length items + 2.
Proof.
  intros Hd Hlt Hcol Hcat Hidne Hdesc Hc Hcs Hi His Hb Hbne.
  destruct (parse_hierarchy_input fuel _ Hd Hlt) as (kvs' & ns & Heq & Hp & Hch).
  injection Heq as <-. rewrite Hc in Hch. destruct Hch as (cs' & Heq & Hall).
  injection Heq as <-.
  assert (Hns : forallb catalog_child ns = true).
  { clear - Hall Hcs. induction Hall as [|c n cs ns Hcn _ IH]; [reflexivity|].
    simpl in Hcs |- *. apply andb_true_iff in Hcs. destruct Hcs as [H1 H2].
    now rewrite (parse_catalog_child _ _ _ Hcn H1), (IH H2). }
  assert (Hitems : entry "items" kvs = VList items) by (unfold entry; now rewrite Hi).
  exists (node_of kvs ns). unfold node_of in Hp |- *.
  rewrite Hcol, Hcat, Hitems in Hp |- *.
  destruct (browsable_catalog_returns_aux ver
              [("catalog_id", VStr catalog_id); ("children", VList ns);
               ("items", VList items);
               ("title", entry "title" kvs); ("description", entry "description" kvs)]
              ns items catalog_id catalog_path base_url
              eq_refl Hns eq_refl His eq_refl Hidne Hdesc Hb Hbne)
    as (cat & Hcatalog & Hid & Hlen).
  exists cat. split; [exact Hp|]. split; [exact Hcatalog|]. split; [exact Hid|].
  rewrite Hlen, (Forall2_length Hall). reflexivity.
Qed.

Lemma parse_then_browsable_catalog_witness :
  exists node cat,
    parse_hierarchy 4
      (VDict [("catalog_id", VStr "root");
              ("children", VList [VDict [("catalog_id", VStr "c1")]]);
              ("items", VList [VList [VStr "c1"; VStr "item1"]])]) = Ok node /\
    browsable_catalog "1.0.0" node "root" "https://example.com/" = Ok cat /\
    id cat = "root" /\
    List.length (links cat) = 1 + 1 + 2.
Proof.
  assert (Hd : input_mapping
                 (VDict [("catalog_id", VStr "root");
                         ("children", VList [VDict [("catalog_id", VStr "c1")]]);
                         ("items", VList [VList [VStr "c1"; VStr "item1"]])])).
  { apply input_node with (children := [VDict [("catalog_id", VStr "c1")]]);
      [reflexivity|].
    constructor; [|constructor]. apply input_leaf. reflexivity. }
  assert (Hlt : depth (VDict [("catalog_id", VStr "root");
                              ("children", VList [VDict [("catalog_id", VStr "c1")]]);
                              ("items", VList [VList [VStr "c1"; VStr "item1"]])]) < 4)
    by (simpl; lia).
  exact (parse_then_browsable_catalog 4 "1.0.0"
           [("catalog_id", VStr "root");
            ("children", VList [VDict [("catalog_id", VStr "c1")]]);
            ("items", VList [VList [VStr "c1"; VStr "item1"]])]
           [VDict [("catalog_id", VStr "c1")]] [VList [VStr "c1"; VStr "item1"]]
           "root" "root" "https://example.com/"
           Hd Hlt eq_refl eq_refl eq_refl eq_refl eq_refl eq_refl eq_refl eq_refl
           eq_refl eq_refl).
Defined.
